(** * symalign: dual-view multimodal alignment

    A shallow embedding of [symalign/multimodal_encoder.py] and
    [symalign/multimodal_symbolic_loss.py].

    Modelling conventions.
    - Tensor entries are real numbers: [float] values are idealised, so a
      dtype cast keeps the value and only changes the dtype tag.
    - A tensor is a nested list, outermost axis first.  An axis of extent
      zero erases the extents nested below it; shape checks compare what
      the nested lists record.
    - Device and dtype tags are carried by rank-4 tensors, where the source
      handles them ([.to(device=..., dtype=...)]); embeddings are plain
      matrices.
    - A Python exception is a [Raise] result; mutation performed before the
      exception is kept.
    - Calls of sub-modules and of external collaborators are recorded, in
      order, in the [calls] log of the world.
    - [.detach()], [.cpu()] and [.numpy()] keep the values of a tensor, so
      they do not appear; parameter values, which [__init__] draws at
      random, are arguments of the constructors. *)

From Stdlib Require Import String Reals Lra Lia ZArith Bool Arith List.
Import ListNotations.
Open Scope R_scope.

(** ** Exceptions and results *)

Inductive exn : Type :=
| RuntimeError
| IndexError.

Inductive result (A : Type) : Type :=
| Ok (a : A)
| Raise (e : exn).
Arguments Ok {A} a.
Arguments Raise {A} e.

Definition rbind {A B} (r : result A) (k : A -> result B) : result B :=
  match r with
  | Ok a => k a
  | Raise e => Raise e
  end.

Fixpoint rmapM {A B} (f : A -> result B) (l : list A) : result (list B) :=
  match l with
  | [] => Ok []
  | x :: tl =>
      rbind (f x) (fun y => rbind (rmapM f tl) (fun ys => Ok (y :: ys)))
  end.

(** ** Tensors *)

(** rank 1 *)
Abbreviation vec := (list R) (only parsing).
(** rank 2, [(B,D)] *)
Abbreviation mat := (list (list R)) (only parsing).
(** rank 2, [(H,W)] *)
Abbreviation plane := (list (list R)) (only parsing).
(** rank 3, [(C,H,W)] *)
Abbreviation sample := (list (list (list R))) (only parsing).
(** rank 4, [(B,C,H,W)] *)
Abbreviation batch := (list (list (list (list R)))) (only parsing).

Inductive device : Type :=
| CPU
| CUDA (index : nat).

Inductive dtype : Type :=
| Float16
| Float32
| Float64.

Record Tensor4 : Type := mkTensor4 {
  t_device : device;
  t_dtype : dtype;
  t_data : batch
}.

Definition device_eqb (a b : device) : bool :=
  match a, b with
  | CPU, CPU => true
  | CUDA i, CUDA j => Nat.eqb i j
  | _, _ => false
  end.

Definition dtype_rank (d : dtype) : nat :=
  match d with Float16 => 0 | Float32 => 1 | Float64 => 2 end%nat.

(** torch type promotion, restricted to the floating dtypes above *)
Definition promote (a b : dtype) : dtype :=
  if (dtype_rank a <=? dtype_rank b)%nat then b else a.

(** [(H,W)] of a plane, [(C,H,W)] of a sample *)
Definition plane_shape (pl : plane) : nat * nat :=
  (length pl, length (hd [] pl)).

Definition sample_shape (s : sample) : nat * (nat * nat) :=
  (length s, plane_shape (hd [] s)).

Definition shape2_eqb (a b : nat * nat) : bool :=
  Nat.eqb (fst a) (fst b) && Nat.eqb (snd a) (snd b).

Definition shape3_eqb (a b : nat * (nat * nat)) : bool :=
  Nat.eqb (fst a) (fst b) && shape2_eqb (snd a) (snd b).

(** ** torch primitives *)

(** [t[i, c]] on a rank-4 tensor *)
Definition index2 (t : Tensor4) (i c : nat) : result plane :=
  match nth_error (t_data t) i with
  | None => Raise IndexError
  | Some s =>
      match nth_error s c with
      | None => Raise IndexError
      | Some pl => Ok pl
      end
  end.

(** [(a > 0.5).astype(np.float32)] *)
Definition harden (pl : plane) : plane :=
  map (map (fun x => if Rlt_dec (1/2) x then 1 else 0)) pl.

(** [torch.stack(outs, dim=0)]: refuses the empty list and lists whose
    members differ in shape; the result is on the CPU, as tensors made by
    [torch.from_numpy] are. *)
Definition stack (dt : dtype) (outs : list sample) : result Tensor4 :=
  match outs with
  | [] => Raise RuntimeError
  | s0 :: rest =>
      if forallb (fun s => shape3_eqb (sample_shape s) (sample_shape s0)) rest
      then Ok (mkTensor4 CPU dt outs)
      else Raise RuntimeError
  end.

(** [t.to(device=d, dtype=dt)] *)
Definition to_ (t : Tensor4) (d : device) (dt : dtype) : Tensor4 :=
  mkTensor4 d dt (t_data t).

(** [torch.cat([a, b], dim=1)] on rank-4 tensors: the operands must live on
    one device and agree on every axis but the channel axis. *)
Definition cat_sample (sa sb : sample) : result sample :=
  match sa, sb with
  | pa :: _, pb :: _ =>
      if shape2_eqb (plane_shape pa) (plane_shape pb)
      then Ok (sa ++ sb) else Raise RuntimeError
  | _, _ => Ok (sa ++ sb)
  end.

Fixpoint rzip {A B C} (f : A -> B -> result C) (la : list A) (lb : list B)
  : result (list C) :=
  match la, lb with
  | [], [] => Ok []
  | a :: ta, b :: tb =>
      rbind (f a b) (fun c => rbind (rzip f ta tb) (fun cs => Ok (c :: cs)))
  | _, _ => Raise RuntimeError
  end.

Definition cat_dim1 (a b : Tensor4) : result Tensor4 :=
  if device_eqb (t_device a) (t_device b)
  then rbind (rzip cat_sample (t_data a) (t_data b))
         (fun d => Ok (mkTensor4 (t_device a)
                         (promote (t_dtype a) (t_dtype b)) d))
  else Raise RuntimeError.

(** [torch.cat([a, b], dim=-1)] on matrices *)
Definition cat_last (a b : mat) : result mat :=
  rzip (fun ra rb => Ok (ra ++ rb)) a b.

(** Broadcasting of one axis: extents must agree or one of them is 1. *)
Definition bcast {A B C} (f : A -> B -> result C) (la : list A) (lb : list B)
  : result (list C) :=
  match la, lb with
  | [a], _ => rmapM (f a) lb
  | _, [b] => rmapM (fun a => f a b) la
  | _, _ => rzip f la lb
  end.

Definition rmul (x y : R) : result R := Ok (x * y).

(** [a * b] on matrices and on rank-4 data *)
Definition mul2 (a b : mat) : result mat := bcast (bcast rmul) a b.
Definition mul4 (a b : batch) : result batch :=
  bcast (bcast (bcast (bcast rmul))) a b.

(** [t[:, lo:hi]] *)
Definition slice {A} (lo hi : nat) (l : list A) : list A :=
  firstn (hi - lo) (skipn lo l).
Definition slice_dim1 {A} (lo hi : nat) (t : list (list A)) : list (list A) :=
  map (slice lo hi) t.

(** [t.clamp(lo, hi)] *)
Definition clamp (lo hi x : R) : R := Rmin (Rmax x lo) hi.
Definition clamp4 (lo hi : R) (t : batch) : batch :=
  map (map (map (map (clamp lo hi)))) t.

(** [F.normalize(z, dim=-1)]: p = 2, eps = 1e-12 *)
Definition sumsq (v : vec) : R := fold_right (fun x acc => x * x + acc) 0 v.
Definition norm2 (v : vec) : R := sqrt (sumsq v).
Definition eps : R := / 1000000000000.
Definition normalize_row (v : vec) : vec :=
  map (fun x => x / Rmax (norm2 v) eps) v.
Definition F_normalize (z : mat) : mat := map normalize_row z.

(** [torch.softmax(x, dim=-1)] *)
Definition sumexp (v : vec) : R := fold_right (fun x acc => exp x + acc) 0 v.
Definition softmax_row (v : vec) : vec := map (fun x => exp x / sumexp v) v.
Definition softmax (z : mat) : mat := map softmax_row z.

(** [F.relu] *)
Definition relu (x : R) : R := Rmax x 0.

(** ** torch.nn layers *)

Definition Rsum (l : list R) : R := fold_right Rplus 0 l.

Definition dot (a b : vec) : R :=
  Rsum (map (fun ab => fst ab * snd ab) (combine a b)).

(** [nn.Linear(in_features, out_features)]: y = x W^T + b *)
Record Linear : Type := mkLinear {
  in_features : nat;
  out_features : nat;
  weight : nat -> nat -> R;
  bias : nat -> R
}.

Definition Linear_row (l : Linear) (x : vec) : result vec :=
  if Nat.eqb (length x) (in_features l)
  then Ok (map (fun o => dot (map (weight l o) (seq 0 (in_features l))) x
                          + bias l o)
             (seq 0 (out_features l)))
  else Raise RuntimeError.

Definition Linear_forward (l : Linear) (z : mat) : result mat :=
  rmapM (Linear_row l) z.

(** [nn.ReLU] on matrices and on feature maps *)
Definition relu2 (z : mat) : mat := map (map relu) z.
Definition relu3 (s : sample) : sample := map (map (map relu)) s.

(** [nn.Conv2d(in_channels, out_channels, kernel_size, padding=padding)],
    stride 1, zero padding *)
Record Conv2d : Type := mkConv2d {
  in_channels : nat;
  out_channels : nat;
  kernel_size : nat;
  padding : nat;
  kernel : nat -> nat -> nat -> nat -> R;
  cbias : nat -> R
}.

(** entry [(i,j)] of the plane padded by [p] zeros on every side *)
Definition pad_get (pl : plane) (p i j : nat) : R :=
  if (i <? p)%nat || (j <? p)%nat then 0
  else nth (j - p) (nth (i - p) pl []) 0.

Definition conv_at (c : Conv2d) (s : sample) (o y x : nat) : R :=
  cbias c o +
  Rsum (map (fun ch =>
    Rsum (map (fun dy =>
      Rsum (map (fun dx =>
        kernel c o ch dy dx
        * pad_get (nth ch s []) (padding c) (y + dy) (x + dx))
        (seq 0 (kernel_size c))))
      (seq 0 (kernel_size c))))
    (seq 0 (in_channels c))).

Definition Conv2d_sample (c : Conv2d) (s : sample) : result sample :=
  if Nat.eqb (length s) (in_channels c) then
    let '(h, w) := plane_shape (hd [] s) in
    let h' := (h + 2 * padding c + 1 - kernel_size c)%nat in
    let w' := (w + 2 * padding c + 1 - kernel_size c)%nat in
    if Nat.eqb h' 0 || Nat.eqb w' 0 then Raise RuntimeError
    else Ok (map (fun o =>
               map (fun y => map (fun x => conv_at c s o y x) (seq 0 w'))
                 (seq 0 h'))
               (seq 0 (out_channels c)))
  else Raise RuntimeError.

(** [nn.MaxPool2d(k)]: window and stride [k] *)
Definition maxl (l : list R) : R :=
  match l with
  | [] => 0
  | x :: tl => fold_left Rmax tl x
  end.

Definition window (k : nat) (pl : plane) (y x : nat) : list R :=
  flat_map (fun dy =>
    map (fun dx => nth (k * x + dx) (nth (k * y + dy) pl []) 0) (seq 0 k))
    (seq 0 k).

Definition MaxPool2d_sample (k : nat) (s : sample) : result sample :=
  let '(h, w) := plane_shape (hd [] s) in
  let h' := (h / k)%nat in
  let w' := (w / k)%nat in
  if Nat.eqb h' 0 || Nat.eqb w' 0 then Raise RuntimeError
  else Ok (map (fun pl =>
             map (fun y => map (fun x => maxl (window k pl y x)) (seq 0 w'))
               (seq 0 h'))
             s).

(** [nn.AdaptiveAvgPool2d(1)] followed by [nn.Flatten()]: one mean per
    channel *)
Definition avgpool_flatten (s : sample) : vec :=
  map (fun pl => Rsum (concat pl) / INR (length (concat pl))) s.

Inductive layer : Type :=
| LConv2d (c : Conv2d)
| LReLU
| LMaxPool2d (k : nat).

Definition layer_forward (l : layer) (x : batch) : result batch :=
  match l with
  | LConv2d c => rmapM (Conv2d_sample c) x
  | LReLU => Ok (map relu3 x)
  | LMaxPool2d k => rmapM (MaxPool2d_sample k) x
  end.

(** [nn.Sequential] *)
Fixpoint Sequential_forward (ls : list layer) (x : batch) : result batch :=
  match ls with
  | [] => Ok x
  | l :: rest => rbind (layer_forward l x) (Sequential_forward rest)
  end.

(** ** multimodal_encoder.py *)

(** Parameter values of the image encoder; [__init__] fixes the shapes. *)
Record ImageParams : Type := mkImageParams {
  k1 : nat -> nat -> nat -> nat -> R;  b1 : nat -> R;
  k2 : nat -> nat -> nat -> nat -> R;  b2 : nat -> R;
  k3 : nat -> nat -> nat -> nat -> R;  b3 : nat -> R;
  k4 : nat -> nat -> nat -> nat -> R;  b4 : nat -> R;
  w_head : nat -> nat -> R;            b_head : nat -> R
}.

Record SmallImageEncoder : Type := mkSmallImageEncoder {
  net : list layer;
  head : Linear
}.

Definition SmallImageEncoder_init (embed_dim width : nat) (th : ImageParams)
  : SmallImageEncoder :=
  {| net :=
       [ LConv2d (mkConv2d 3 width 3 1 (k1 th) (b1 th));
         LReLU;
         LConv2d (mkConv2d width width 3 1 (k2 th) (b2 th));
         LReLU;
         LMaxPool2d 2;
         LConv2d (mkConv2d width (width * 2) 3 1 (k3 th) (b3 th));
         LReLU;
         LMaxPool2d 2;
         LConv2d (mkConv2d (width * 2) (width * 2) 3 1 (k4 th) (b4 th));
         LReLU ];
     head := mkLinear (width * 2) embed_dim (w_head th) (b_head th) |}.

(** the embedding before [F.normalize] *)
Definition SmallImageEncoder_features (m : SmallImageEncoder) (x : batch)
  : result mat :=
  rbind (Sequential_forward (net m) x) (fun z =>
  Linear_forward (head m) (map avgpool_flatten z)).

Definition SmallImageEncoder_forward (m : SmallImageEncoder) (x : batch)
  : result mat :=
  rbind (Sequential_forward (net m) x) (fun z =>
  rbind (Linear_forward (head m) (map avgpool_flatten z)) (fun z =>
  Ok (F_normalize z))).

Record FusionMLP : Type := mkFusionMLP {
  mlp_proj1 : Linear;
  mlp_proj2 : Linear
}.

Record MLPParams : Type := mkMLPParams {
  mlp_w1 : nat -> nat -> R;  mlp_b1 : nat -> R;
  mlp_w2 : nat -> nat -> R;  mlp_b2 : nat -> R
}.

Definition FusionMLP_init (embed_dim : nat) (th : MLPParams) : FusionMLP :=
  {| mlp_proj1 := mkLinear (embed_dim * 2) embed_dim (mlp_w1 th) (mlp_b1 th);
     mlp_proj2 := mkLinear embed_dim embed_dim (mlp_w2 th) (mlp_b2 th) |}.

(** [self.proj(z)] *)
Definition FusionMLP_proj (m : FusionMLP) (z : mat) : result mat :=
  rbind (Linear_forward (mlp_proj1 m) z) (fun h =>
  Linear_forward (mlp_proj2 m) (relu2 h)).

Definition FusionMLP_forward (m : FusionMLP) (z_mask z_img : mat)
  : result mat :=
  rbind (cat_last z_mask z_img) (fun z =>
  rbind (FusionMLP_proj m z) (fun y =>
  Ok (F_normalize y))).

Record FusionAttention : Type := mkFusionAttention {
  attn1 : Linear;
  attn2 : Linear;
  attn_proj : Linear
}.

Record AttnParams : Type := mkAttnParams {
  attn_w1 : nat -> nat -> R;  attn_b1 : nat -> R;
  attn_w2 : nat -> nat -> R;  attn_b2 : nat -> R;
  attn_wp : nat -> nat -> R;  attn_bp : nat -> R
}.

Definition FusionAttention_init (embed_dim : nat) (th : AttnParams)
  : FusionAttention :=
  {| attn1 := mkLinear (embed_dim * 2) embed_dim (attn_w1 th) (attn_b1 th);
     attn2 := mkLinear embed_dim 2 (attn_w2 th) (attn_b2 th);
     attn_proj := mkLinear (embed_dim * 2) embed_dim (attn_wp th) (attn_bp th) |}.

(** [self.attn(concat)] *)
Definition FusionAttention_attn (m : FusionAttention) (z : mat) : result mat :=
  rbind (Linear_forward (attn1 m) z) (fun h =>
  Linear_forward (attn2 m) (relu2 h)).

(** [w], the softmax weights of line 76 *)
Definition FusionAttention_weights (m : FusionAttention) (z_mask z_img : mat)
  : result mat :=
  rbind (cat_last z_mask z_img) (fun concat =>
  rbind (FusionAttention_attn m concat) (fun logits =>
  Ok (softmax logits))).

Definition FusionAttention_forward (m : FusionAttention) (z_mask z_img : mat)
  : result mat :=
  rbind (cat_last z_mask z_img) (fun concat =>
  rbind (FusionAttention_attn m concat) (fun logits =>
  let w := softmax logits in
  rbind (mul2 (slice_dim1 0 1 w) z_mask) (fun zm =>
  rbind (mul2 (slice_dim1 1 2 w) z_img) (fun zi =>
  rbind (cat_last zm zi) (fun fused =>
  rbind (Linear_forward (attn_proj m) fused) (fun y =>
  Ok (F_normalize y))))))).

Inductive Fusion : Type :=
| UseFusionAttention (m : FusionAttention)
| UseFusionMLP (m : FusionMLP).

Definition Fusion_forward (f : Fusion) (z_mask z_img : mat) : result mat :=
  match f with
  | UseFusionAttention m => FusionAttention_forward m z_mask z_img
  | UseFusionMLP m => FusionMLP_forward m z_mask z_img
  end.

Record MultiModalConfig : Type := mkMultiModalConfig {
  embed_dim : nat;
  mask_width : nat;
  image_width : nat;
  fusion_tag : string
}.

Definition default_config : MultiModalConfig :=
  mkMultiModalConfig 64 32 32 "mlp".

(** The frozen mask encoder, consumed through its call contract. *)
Definition SmallMaskEncoder : Type := Tensor4 -> mat.

(** Initial values of the learned parameters; [__init__] draws them, here
    they are passed in. *)
Record InitParams : Type := mkInitParams {
  init_image : ImageParams;
  init_mlp : MLPParams;
  init_attn : AttnParams
}.

Record MultiModalSymbolicEncoder : Type := mkMultiModalSymbolicEncoder {
  mask_encoder : SmallMaskEncoder;
  image_encoder : SmallImageEncoder;
  fusion : Fusion;
  cfg : MultiModalConfig
}.

Definition MultiModalSymbolicEncoder_init
  (mask_enc : SmallMaskEncoder) (c : MultiModalConfig) (th : InitParams)
  : result MultiModalSymbolicEncoder :=
  Ok {| mask_encoder := mask_enc;
        image_encoder :=
          SmallImageEncoder_init (embed_dim c) (image_width c) (init_image th);
        fusion :=
          if String.eqb (fusion_tag c) "attn"
          then UseFusionAttention
                 (FusionAttention_init (embed_dim c) (init_attn th))
          else UseFusionMLP (FusionMLP_init (embed_dim c) (init_mlp th));
        cfg := c |}.

(** ** External collaborators *)

Class Externals : Type := {
  (** [masks.boundary_band(mask, width=...)] *)
  boundary_band : plane -> Z -> plane;
  (** dtype of the array [boundary_band] returns *)
  band_dtype : dtype;
  (** [prior.EMAStats] and its [update] method *)
  EMAStats : Type;
  EMAStats_update : EMAStats -> mat -> EMAStats
}.

(** ** The world: EMA objects by reference, and the log of calls *)

Definition ref : Type := nat.

Inductive call : Type :=
| CallBoundaryBand (mask : plane) (width : Z)
| CallEncoder (image mask_pair : Tensor4)
| CallMaskEncoder (x : Tensor4)
| CallImageEncoder (x : Tensor4)
| CallFusion (z_mask z_img : mat)
| CallUpdate (target : ref) (rows : mat).

Section Program.
Context {ext : Externals}.

Record world : Type := mkWorld {
  heap : ref -> EMAStats;
  calls : list call
}.

Definition M (A : Type) : Type := world -> result A * world.

Definition ret {A} (a : A) : M A := fun w => (Ok a, w).

Definition bind {A B} (m : M A) (k : A -> M B) : M B :=
  fun w =>
    match m w with
    | (Ok a, w') => k a w'
    | (Raise e, w') => (Raise e, w')
    end.

Definition lift {A} (r : result A) : M A := fun w => (r, w).

Definition log (c : call) : M unit :=
  fun w => (Ok tt, mkWorld (heap w) (calls w ++ [c])).

Definition set_ref (r : ref) (v : EMAStats) (h : ref -> EMAStats)
  : ref -> EMAStats :=
  fun x => if Nat.eqb x r then v else h x.

(** [obj.update(rows)] on the EMA object behind [r] *)
Definition call_update (r : ref) (rows : mat) : M unit :=
  fun w =>
    (Ok tt,
     mkWorld (set_ref r (EMAStats_update (heap w r) rows) (heap w))
       (calls w ++ [CallUpdate r rows])).

Definition call_boundary_band (mask : plane) (width : Z) : M plane :=
  bind (log (CallBoundaryBand mask width)) (fun _ =>
  ret (boundary_band mask width)).

(** [image * mask_ch] *)
Definition mul4t (a b : Tensor4) : result Tensor4 :=
  if device_eqb (t_device a) (t_device b)
  then rbind (mul4 (t_data a) (t_data b)) (fun d =>
       Ok (mkTensor4 (t_device a) (promote (t_dtype a) (t_dtype b)) d))
  else Raise RuntimeError.

(** [mask_pair[:, 0:1].clamp(0.0, 1.0)] *)
Definition mask_channel (mask_pair : Tensor4) : Tensor4 :=
  mkTensor4 (t_device mask_pair) (t_dtype mask_pair)
    (clamp4 0 1 (slice_dim1 0 1 (t_data mask_pair))).

Definition MultiModalSymbolicEncoder_forward
  (self : MultiModalSymbolicEncoder) (image mask_pair : Tensor4)
  : M (mat * mat * mat) :=
  bind (log (CallMaskEncoder mask_pair)) (fun _ =>
  let z_mask := mask_encoder self mask_pair in
  let mask_ch := mask_channel mask_pair in
  bind (lift (mul4t image mask_ch)) (fun masked_image =>
  bind (log (CallImageEncoder masked_image)) (fun _ =>
  bind (lift (SmallImageEncoder_forward (image_encoder self)
                (t_data masked_image))) (fun z_img =>
  bind (log (CallFusion z_mask z_img)) (fun _ =>
  bind (lift (Fusion_forward (fusion self) z_mask z_img)) (fun z_fused =>
  ret (z_fused, z_mask, z_img))))))).

(** ** multimodal_symbolic_loss.py *)

(** the [for i in range(bs)] loop, [outs] being the list built so far *)
Fixpoint boundary_loop (p : Tensor4) (width : Z) (range : list nat)
  (outs : list sample) : M (list sample) :=
  match range with
  | [] => ret outs
  | i :: rest =>
      bind (lift (index2 p i 0)) (fun pi =>
      bind (call_boundary_band (harden pi) width) (fun bi =>
      boundary_loop p width rest (outs ++ [[bi]])))
  end.

Definition boundary_from_prob (p : Tensor4) (width : Z) : M Tensor4 :=
  let bs := length (t_data p) in
  bind (boundary_loop p width (seq 0 bs) []) (fun outs =>
  bind (lift (stack band_dtype outs)) (fun t =>
  ret (to_ t (t_device p) (t_dtype p)))).

Record MultiModalSymbolicAlignment : Type := mkMultiModalSymbolicAlignment {
  encoder : MultiModalSymbolicEncoder;
  ema_global : ref;
  ema_boundary : ref;
  boundary_width : Z;
  huber_delta : R;
  output : string
}.

Definition call_encoder (e : MultiModalSymbolicEncoder)
  (image mask_pair : Tensor4) : M (mat * mat * mat) :=
  bind (log (CallEncoder image mask_pair)) (fun _ =>
  MultiModalSymbolicEncoder_forward e image mask_pair).

Definition compute_embeddings (self : MultiModalSymbolicAlignment)
  (image p : Tensor4) : M (mat * mat) :=
  bind (boundary_from_prob p (boundary_width self)) (fun bnd =>
  bind (lift (cat_dim1 p bnd)) (fun x_g =>
  bind (lift (cat_dim1 bnd bnd)) (fun x_b =>
  bind (call_encoder (encoder self) image x_g) (fun '(zf_g, zm_g, zi_g) =>
  bind (call_encoder (encoder self) image x_b) (fun '(zf_b, zm_b, zi_b) =>
  if String.eqb (output self) "mask" then ret (zm_g, zm_b)
  else if String.eqb (output self) "image" then ret (zi_g, zi_b)
  else ret (zf_g, zf_b)))))).

(** The validity mask: a rank-1 tensor, of dtype [torch.bool] or numeric. *)
Inductive MaskTensor : Type :=
| BoolMask (l : list bool)
| NumMask (l : list R).

Definition numel (m : MaskTensor) : nat :=
  match m with BoolMask l => length l | NumMask l => length l end.

(** [mask.bool()]: non-zero is true *)
Definition to_bool (m : MaskTensor) : list bool :=
  match m with
  | BoolMask l => l
  | NumMask l => map (fun x => if Req_dec_T x 0 then false else true) l
  end.

(** [mask.any()] on a boolean mask *)
Definition any (m : list bool) : bool := existsb (fun b => b) m.

(** [z[mask]]: the rows of [z] at the true entries of a boolean mask whose
    length is the number of rows *)
Definition bool_index (z : mat) (m : list bool) : result mat :=
  if Nat.eqb (length m) (length z)
  then Ok (map snd (filter fst (combine m z)))
  else Raise IndexError.

Definition update_priors (self : MultiModalSymbolicAlignment)
  (z_g z_b : mat) (mask : MaskTensor) : M unit :=
  if Nat.eqb (numel mask) 0 then ret tt
  else
    let mask := to_bool mask in
    if any mask then
      bind (lift (bool_index z_g mask)) (fun rows_g =>
      bind (call_update (ema_global self) rows_g) (fun _ =>
      bind (lift (bool_index z_b mask)) (fun rows_b =>
      call_update (ema_boundary self) rows_b)))
    else ret tt.

End Program.

(** ** Vocabulary of the statements *)

(** [z] has shape [(b,d)] *)
Definition rows (b d : nat) (z : mat) : Prop :=
  length z = b /\ Forall (fun r => length r = d) z.

(** [s] has shape [(c,h,w)], [x] has shape [(b,c,h,w)] *)
Definition rect3 (c h w : nat) (s : sample) : Prop :=
  length s = c /\ Forall (rows h w) s.
Definition rect4 (b c h w : nat) (x : batch) : Prop :=
  length x = b /\ Forall (rect3 c h w) x.

(** the extents the first plane and its first row record *)
Definition shaped3 (c h w : nat) (s : sample) : Prop :=
  sample_shape s = (c, (h, w)).

(** entry [(n,c,i,j)] of a rank-4 tensor, when the index is in range *)
Definition at4 (x : batch) (n c i j : nat) : option R :=
  match nth_error x n with
  | Some s =>
      match nth_error s c with
      | Some pl =>
          match nth_error pl i with
          | Some r => nth_error r j
          | None => None
          end
      | None => None
      end
  | None => None
  end.

(** entry-wise combination of two lists of one length *)
Definition zipw {A B C} (g : A -> B -> C) (la : list A) (lb : list B)
  : list C :=
  map (fun ab => g (fst ab) (snd ab)) (combine la lb).

(** What [F.normalize] does to the norm of a row: unit norm, hence unit
    norm within the tolerance 1e-5, from a row of norm at least [eps]; the
    norm divided by [eps] below that. *)
Definition unit_or_small (pre out : vec) : Prop :=
  (eps <= norm2 pre -> norm2 out = 1)
  /\ (eps <= norm2 pre -> Rabs (norm2 out - 1) <= / 100000)
  /\ (norm2 pre < eps -> norm2 out = norm2 pre / eps).

(** [two_weights r]: [r] holds two weights in [0,1] that sum to 1 *)
Definition two_weights (r : vec) : Prop :=
  exists w0 w1,
    r = [w0; w1] /\ 0 <= w0 <= 1 /\ 0 <= w1 <= 1 /\ w0 + w1 = 1.

(** [softmax_pair l r]: [l] holds two logits and [r] their softmax, each
    exponential over the sum of the two *)
Definition softmax_pair (l r : vec) : Prop :=
  exists l0 l1,
    l = [l0; l1]
    /\ r = [exp l0 / (exp l0 + exp l1); exp l1 / (exp l0 + exp l1)].

(** [scaled_concat w z_mask z_img fused]: row by row, [fused] is the whole
    mask row times the first weight followed by the whole image row times
    the second weight. *)
Inductive scaled_concat : mat -> mat -> mat -> mat -> Prop :=
| scaled_nil : scaled_concat [] [] [] []
| scaled_cons w0 w1 zm zi ws zms zis fs :
    scaled_concat ws zms zis fs ->
    scaled_concat ([w0; w1] :: ws) (zm :: zms) (zi :: zis)
      ((map (Rmult w0) zm ++ map (Rmult w1) zi) :: fs).

(** [selects m z rows]: [rows] are the rows of [z] at the true entries of
    [m], in order. *)
Inductive selects : list bool -> mat -> mat -> Prop :=
| selects_nil : selects [] [] []
| selects_keep m x z rows :
    selects m z rows -> selects (true :: m) (x :: z) (x :: rows)
| selects_drop m x z rows :
    selects m z rows -> selects (false :: m) (x :: z) rows.

(** the product of line 114, entry by entry *)
Definition masked_by (x mc : batch) : batch :=
  zipw (fun s ms => map (fun a => zipw (zipw Rmult) a (hd [] ms)) s) x mc.

(** the selection of lines 50-54, by the three documented selectors *)
Definition selected (output : string) (t_g t_b : mat * mat * mat)
  (z : mat * mat) : Prop :=
  (output = "fused"%string -> z = (fst (fst t_g), fst (fst t_b)))
  /\ (output = "mask"%string -> z = (snd (fst t_g), snd (fst t_b)))
  /\ (output = "image"%string -> z = (snd t_g, snd t_b)).

Section Views_of_the_driver.
Context {ext : Externals}.

(** The band of sample [s]: channel 0, hardened, then banded. *)
Definition band_of (width : Z) (s : sample) : sample :=
  [boundary_band (harden (hd [] s)) width].

Definition band_call (width : Z) (s : sample) : call :=
  CallBoundaryBand (harden (hd [] s)) width.

(** the two views of lines 44 and 45 *)
Definition global_view (width : Z) (p : Tensor4) : Tensor4 :=
  mkTensor4 (t_device p) (t_dtype p)
    (map (fun s => s ++ band_of width s) (t_data p)).

Definition boundary_view (width : Z) (p : Tensor4) : Tensor4 :=
  mkTensor4 (t_device p) (t_dtype p)
    (map (fun s => band_of width s ++ band_of width s) (t_data p)).

(** [self] with the selector "fused" *)
Definition with_fused (self : MultiModalSymbolicAlignment)
  : MultiModalSymbolicAlignment :=
  mkMultiModalSymbolicAlignment (encoder self) (ema_global self)
    (ema_boundary self) (boundary_width self) (huber_delta self) "fused".

End Views_of_the_driver.

(** ** Concrete instances, to run the model on examples *)

(** Collaborators that keep the mask as its own band and remember every
    batch an EMA object was updated with. *)
Definition history_externals : Externals :=
  {| boundary_band := fun mask _ => mask;
     band_dtype := Float32;
     EMAStats := list mat;
     EMAStats_update := fun st rows => rows :: st |}.

Definition empty_world : @world history_externals :=
  @mkWorld history_externals (fun _ => []) [].

(** A constant [(h,w)] plane. *)
Definition const_plane (h w : nat) (v : R) : plane := repeat (repeat v w) h.

(** One RGB image of 4 x 4 pixels and its probability map. *)
Definition demo_image : Tensor4 :=
  mkTensor4 CPU Float32
    [[const_plane 4 4 1; const_plane 4 4 1; const_plane 4 4 1]].

Definition demo_p : Tensor4 :=
  mkTensor4 CPU Float32 [[const_plane 4 4 (3/4)]].

Definition demo_mask_pair : Tensor4 :=
  mkTensor4 CPU Float32 [[const_plane 4 4 (3/4); const_plane 4 4 1]].

(** A mask encoder that embeds every sample as the unit vector (1,0). *)
Definition demo_mask_encoder : SmallMaskEncoder :=
  fun x => map (fun _ => [1; 0]) (t_data x).

Definition demo_params : InitParams :=
  {| init_image :=
       mkImageParams (fun _ _ _ _ => 1) (fun _ => 0) (fun _ _ _ _ => 1)
         (fun _ => 0) (fun _ _ _ _ => 1) (fun _ => 0) (fun _ _ _ _ => 1)
         (fun _ => 0) (fun _ _ => 1) (fun _ => 0);
     init_mlp := mkMLPParams (fun _ _ => 1) (fun _ => 0) (fun _ _ => 1)
                   (fun _ => 0);
     init_attn := mkAttnParams (fun _ _ => 1) (fun _ => 0) (fun _ _ => 1)
                    (fun _ => 0) (fun _ _ => 1) (fun _ => 0) |}.

(** A configuration with a misspelled fusion tag. *)
Definition demo_cfg : MultiModalConfig := mkMultiModalConfig 2 32 1 "attention".

Definition demo_encoder : MultiModalSymbolicEncoder :=
  {| mask_encoder := demo_mask_encoder;
     image_encoder := SmallImageEncoder_init 2 1 (init_image demo_params);
     fusion := UseFusionMLP (FusionMLP_init 2 (init_mlp demo_params));
     cfg := demo_cfg |}.

(** An alignment driver with a misspelled output selector. *)
Definition demo_alignment : MultiModalSymbolicAlignment :=
  mkMultiModalSymbolicAlignment demo_encoder 0%nat 1%nat 2%Z 1 "fusion".

(** One RGB image of 2 x 2 pixels with its probability map and a mask
    pair: too small for the two pooling stages. *)
Definition tiny_image : Tensor4 :=
  mkTensor4 CPU Float32
    [[const_plane 2 2 1; const_plane 2 2 1; const_plane 2 2 1]].

Definition tiny_p : Tensor4 :=
  mkTensor4 CPU Float32 [[const_plane 2 2 (3/4)]].

Definition tiny_mask_pair : Tensor4 :=
  mkTensor4 CPU Float32 [[const_plane 2 2 (3/4); const_plane 2 2 1]].

(** [demo_image] held on an accelerator while the masks are on the CPU. *)
Definition remote_image : Tensor4 :=
  mkTensor4 (CUDA 0) Float32 (t_data demo_image).

(** A mask pair whose channel 0 leaves [0,1]: rows of 2, of -1, of 1/2 and
    of 1. *)
Definition clamping_mask_pair : Tensor4 :=
  mkTensor4 CPU Float32
    [[[repeat 2 4; repeat (-1) 4; repeat (1/2) 4; repeat 1 4];
      const_plane 4 4 1]].

(** A driver with the documented default selector. *)
Definition default_alignment : MultiModalSymbolicAlignment :=
  mkMultiModalSymbolicAlignment demo_encoder 0%nat 1%nat 2%Z 1 "fused".

(** An attention fusion whose first logit is the sum of the hidden units
    and whose second logit is 0. *)
Definition skew_attn : AttnParams :=
  mkAttnParams (fun _ _ => 1) (fun _ => 0)
    (fun o _ => if Nat.eqb o 0 then 1 else 0) (fun _ => 0)
    (fun _ _ => 1) (fun _ => 0).

(** A linear fusion of dimension 1 whose hidden unit is dead on the input
    (1, 1) and whose output bias is zero. *)
Definition dead_mlp : MLPParams :=
  mkMLPParams (fun _ _ => -1) (fun _ => 0) (fun _ _ => 1) (fun _ => 0).

(** The image of [demo_image] on an accelerator. *)
Definition demo_image_cuda : Tensor4 :=
  mkTensor4 (CUDA 0) Float32 (t_data demo_image).

(** A batch of one RGB image of 2 x 2 pixels. *)
Definition tiny_batch : batch :=
  [[const_plane 2 2 1; const_plane 2 2 1; const_plane 2 2 1]].

(** A probability map of shape (1,0,H,W). *)
Definition no_channel_p : Tensor4 := mkTensor4 CPU Float32 [[]].

(** Drivers that select the mask embedding, and that hold one EMA object in
    both fields. *)
Definition demo_alignment_mask : MultiModalSymbolicAlignment :=
  mkMultiModalSymbolicAlignment demo_encoder 0%nat 1%nat 2%Z 1 "mask".

Definition shared_alignment : MultiModalSymbolicAlignment :=
  mkMultiModalSymbolicAlignment demo_encoder 0%nat 0%nat 2%Z 1 "fused".

(** ** Vocabulary of the further properties *)

(** [p[:, 0:1]] as a tensor *)
Definition first_channel (p : Tensor4) : Tensor4 :=
  mkTensor4 (t_device p) (t_dtype p) (slice_dim1 0 1 (t_data p)).

(** the probability map hardened entry by entry, every channel *)
Definition hardened (p : Tensor4) : Tensor4 :=
  mkTensor4 (t_device p) (t_dtype p) (map (map harden) (t_data p)).

(** a call that is not an EMA update *)
Definition not_update (c : call) : Prop :=
  match c with
  | CallUpdate _ _ => False
  | _ => True
  end.

(** [z] and [z'] hold the same row wherever [m] is true *)
Definition agree_on (m : list bool) (z z' : mat) : Prop :=
  forall i, nth_error m i = Some true -> nth_error z i = nth_error z' i.

(** One layer, the layer stack and the whole image encoder on a single
    image. *)
Definition layer_sample (l : layer) (s : sample) : result sample :=
  match l with
  | LConv2d c => Conv2d_sample c s
  | LReLU => Ok (relu3 s)
  | LMaxPool2d k => MaxPool2d_sample k s
  end.

Fixpoint Sequential_sample (ls : list layer) (s : sample) : result sample :=
  match ls with
  | [] => Ok s
  | l :: rest => rbind (layer_sample l s) (Sequential_sample rest)
  end.

Definition embed_sample (m : SmallImageEncoder) (s : sample) : result vec :=
  rbind (Sequential_sample (net m) s) (fun z =>
  rbind (Linear_row (head m) (avgpool_flatten z)) (fun y =>
  Ok (normalize_row y))).

Section Effects.
Context {ext : Externals}.

(** [quiet m]: running [m] keeps every EMA object and only appends calls
    that are not EMA updates, whether it returns or raises. *)
Definition quiet {A} (m : M A) : Prop :=
  forall w,
    heap (snd (m w)) = heap w
    /\ exists t, calls (snd (m w)) = calls w ++ t /\ Forall not_update t.

End Effects.

(** ** General facts about results and the monad *)

Lemma rmapM_total {A B} (f : A -> B) (l : list A) :
  rmapM (fun x => Ok (f x)) l = Ok (map f l).
Proof.
  induction l as [|x tl IH]; simpl; [reflexivity|].
  rewrite IH. reflexivity.
Qed.

Lemma rmapM_Forall {A B} (f : A -> result B) (g : A -> B) (l : list A) :
  Forall (fun x => f x = Ok (g x)) l -> rmapM f l = Ok (map g l).
Proof.
  induction 1 as [|x tl Hx _ IH]; simpl; [reflexivity|].
  rewrite Hx, IH. reflexivity.
Qed.

Lemma rzip_total {A B C} (f : A -> B -> C) (la : list A) (lb : list B) :
  length la = length lb ->
  rzip (fun a b => Ok (f a b)) la lb
  = Ok (map (fun ab => f (fst ab) (snd ab)) (combine la lb)).
Proof.
  revert lb. induction la as [|a ta IH]; intros [|b tb] Hlen;
    simpl in *; try discriminate; [reflexivity|].
  rewrite IH by lia. reflexivity.
Qed.

Lemma rzip_Forall {A B C} (f : A -> B -> result C) (g : A -> B -> C)
  (la : list A) (lb : list B) :
  length la = length lb ->
  Forall (fun ab => f (fst ab) (snd ab) = Ok (g (fst ab) (snd ab)))
    (combine la lb) ->
  rzip f la lb = Ok (map (fun ab => g (fst ab) (snd ab)) (combine la lb)).
Proof.
  revert lb. induction la as [|a ta IH]; intros [|b tb] Hlen HF;
    simpl in *; try discriminate; [reflexivity|].
  inversion HF as [|? ? Hab Htl]; subst. simpl in Hab.
  rewrite Hab. simpl. rewrite IH by (auto; lia). reflexivity.
Qed.

(** Broadcasting two axes of one extent pairs the entries up. *)
Lemma bcast_same_length {A B C} (f : A -> B -> result C)
  (la : list A) (lb : list B) :
  length la = length lb -> bcast f la lb = rzip f la lb.
Proof.
  intros Hlen. unfold bcast.
  destruct la as [|a [|a' ta]]; destruct lb as [|b [|b' tb]];
    simpl in *; try discriminate; reflexivity.
Qed.

(** Broadcasting an axis of extent one against a longer axis repeats it. *)
Lemma bcast_right_one {A B C} (f : A -> B -> result C) (la : list A) (b : B) :
  bcast f la [b] = rmapM (fun a => f a b) la.
Proof.
  unfold bcast. destruct la as [|a [|a' ta]]; try reflexivity.
Qed.

Section Proofs.
Context {ext : Externals}.

(** *** The empty batch *)

(** C1: on a batch of size 0 the loop body never runs, no collaborator is
    called, and [torch.stack] of the empty list raises: both
    [boundary_from_prob] and [compute_embeddings] end in a RuntimeError
    instead of returning empty tensors. *)
Theorem compute_embeddings_empty_batch_raises
  (self : MultiModalSymbolicAlignment) (image : Tensor4)
  (dev : device) (dt : dtype) (width : Z) (w : world) :
  boundary_from_prob (mkTensor4 dev dt []) width w = (Raise RuntimeError, w)
  /\ compute_embeddings self image (mkTensor4 dev dt []) w
     = (Raise RuntimeError, w).
Proof.
  split; reflexivity.
Qed.

(** *** Boundary extraction *)

Lemma map_nth_seq {A B} (f : A -> B) (d : A) (l : list A) :
  map (fun i => f (nth i l d)) (seq 0 (length l)) = map f l.
Proof.
  induction l as [|x tl IH]; simpl; [reflexivity|].
  f_equal. rewrite <- seq_shift, map_map. exact IH.
Qed.

Lemma plane_shape_harden (pl : plane) :
  plane_shape (harden pl) = plane_shape pl.
Proof.
  unfold plane_shape, harden. rewrite length_map.
  destruct pl as [|r tl]; simpl; [reflexivity|].
  rewrite length_map. reflexivity.
Qed.

(** Each entry of the hardened mask is 1 where the probability exceeds
    one half and 0 elsewhere. *)
Lemma harden_entry (pl : plane) (i j : nat) :
  (i < length pl)%nat -> (j < length (nth i pl []))%nat ->
  nth j (nth i (harden pl) []) 0
  = if Rlt_dec (1/2) (nth j (nth i pl []) 0) then 1 else 0.
Proof.
  intros Hi Hj. unfold harden.
  set (g := fun x : R => if Rlt_dec (1/2) x then 1 else 0).
  rewrite (nth_indep (map (map g) pl) [] (map g [])) by (rewrite length_map; exact Hi).
  rewrite (map_nth (map g)).
  rewrite (nth_indep (map g (nth i pl [])) 0 (g 0)) by (rewrite length_map; exact Hj).
  rewrite map_nth. reflexivity.
Qed.

Lemma boundary_loop_is_map (p : Tensor4) (width : Z) (range : list nat) :
  Forall (fun i => exists s, nth_error (t_data p) i = Some s /\ s <> []) range ->
  forall (outs : list sample) (w : world),
  boundary_loop p width range outs w
  = (Ok (outs ++ map (fun i => band_of width (nth i (t_data p) [])) range),
     mkWorld (heap w)
       (calls w ++ map (fun i => band_call width (nth i (t_data p) [])) range)).
Proof.
  induction 1 as [|i rest [s [Hs Hne]] _ IH]; intros outs w; simpl.
  - rewrite !app_nil_r. destruct w; reflexivity.
  - unfold bind at 1, lift, index2. rewrite Hs.
    destruct s as [|pl chans]; [contradiction|]. simpl.
    unfold bind at 1, call_boundary_band, bind, log, ret. simpl.
    rewrite IH. simpl.
    rewrite (nth_error_nth _ _ [] Hs).
    unfold band_of, band_call. simpl.
    rewrite <- !app_assoc. reflexivity.
Qed.

Lemma stack_same_shape (dt : dtype) (outs : list sample)
  (sh : nat * (nat * nat)) :
  outs <> [] ->
  Forall (fun s => sample_shape s = sh) outs ->
  stack dt outs = Ok (mkTensor4 CPU dt outs).
Proof.
  intros Hne HF. destruct outs as [|s0 rest]; [contradiction|].
  inversion HF as [|? ? H0 Hrest]; subst. unfold stack.
  replace (forallb _ rest) with true; [reflexivity|].
  symmetry. apply forallb_forall. intros s Hin.
  rewrite Forall_forall in Hrest. rewrite (Hrest s Hin).
  unfold shape3_eqb, shape2_eqb. rewrite !Nat.eqb_refl. reflexivity.
Qed.

Lemma boundary_from_prob_ok
  (p : Tensor4) (width : Z) (w : world) (sh : nat * nat) :
  t_data p <> [] ->
  Forall (fun s => s <> []) (t_data p) ->
  Forall (fun s => plane_shape (boundary_band (harden (hd [] s)) width) = sh)
    (t_data p) ->
  boundary_from_prob p width w
  = (Ok (mkTensor4 (t_device p) (t_dtype p) (map (band_of width) (t_data p))),
     mkWorld (heap w) (calls w ++ map (band_call width) (t_data p))).
Proof.
  intros Hne Hch Hshape.
  unfold boundary_from_prob, bind at 1.
  rewrite boundary_loop_is_map.
  2:{ apply Forall_forall. intros i Hi. apply in_seq in Hi.
      destruct (nth_error (t_data p) i) as [s|] eqn:E.
      - exists s. split; [reflexivity|].
        apply nth_error_In in E. rewrite Forall_forall in Hch.
        exact (Hch s E).
      - apply nth_error_None in E. lia. }
  simpl app.
  rewrite (map_nth_seq (band_of width) [] (t_data p)).
  rewrite (map_nth_seq (band_call width) [] (t_data p)).
  unfold bind, lift.
  rewrite (stack_same_shape band_dtype _ (1%nat, sh)).
  - reflexivity.
  - destruct (t_data p); [contradiction|discriminate].
  - apply Forall_map. eapply Forall_impl; [|exact Hshape].
    intros s Hs. unfold band_of, sample_shape. simpl. rewrite Hs. reflexivity.
Qed.

(** C4: on a non-empty [(B,C,H,W)] probability map, [boundary_from_prob]
    returns, on the device and with the dtype of the input, one band per
    sample, in batch order, each computed by the boundary-band primitive
    from channel 0 of that sample alone, hardened at p > 0.5; the primitive
    is called once per sample, in that order. *)
Theorem boundary_from_prob_per_sample
  (p : Tensor4) (width : Z) (w : world) (H W : nat) :
  t_data p <> [] ->
  Forall (fun s => exists pl rest, s = pl :: rest /\ plane_shape pl = (H, W))
    (t_data p) ->
  (forall m, plane_shape (boundary_band m width) = plane_shape m) ->
  boundary_from_prob p width w
  = (Ok (mkTensor4 (t_device p) (t_dtype p)
           (map (fun s => [boundary_band (harden (hd [] s)) width])
              (t_data p))),
     mkWorld (heap w)
       (calls w
        ++ map (fun s => CallBoundaryBand (harden (hd [] s)) width)
             (t_data p)))
  /\ (forall pl i j,
        (i < length pl)%nat -> (j < length (nth i pl []))%nat ->
        nth j (nth i (harden pl) []) 0
        = if Rlt_dec (1/2) (nth j (nth i pl []) 0) then 1 else 0).
Proof.
  intros Hne Hshape Hband. split; [|exact harden_entry].
  apply (boundary_from_prob_ok p width w (H, W)); [exact Hne| |].
  - eapply Forall_impl; [|exact Hshape].
    intros s [pl [rest [-> _]]]. discriminate.
  - eapply Forall_impl; [|exact Hshape].
    intros s [pl [rest [-> Hpl]]]. simpl.
    rewrite Hband, plane_shape_harden. exact Hpl.
Qed.

(** *** Normalisation and softmax *)

Lemma eps_pos : 0 < eps.
Proof. unfold eps. apply Rinv_0_lt_compat. lra. Qed.

Lemma sumsq_nonneg (v : list R) : 0 <= sumsq v.
Proof.
  induction v as [|x tl IH]; simpl; [lra|].
  pose proof (Rle_0_sqr x) as Hx. unfold Rsqr in Hx. lra.
Qed.

Lemma norm2_nonneg (v : list R) : 0 <= norm2 v.
Proof. unfold norm2. apply sqrt_pos. Qed.

Lemma sumsq_scale (c : R) (v : list R) :
  c <> 0 -> sumsq (map (fun x => x / c) v) = sumsq v / (c * c).
Proof.
  intros Hc. induction v as [|x tl IH]; simpl.
  - field. exact Hc.
  - rewrite IH. field. exact Hc.
Qed.

Lemma norm2_scale (c : R) (v : list R) :
  0 < c -> norm2 (map (fun x => x / c) v) = norm2 v / c.
Proof.
  intros Hc. unfold norm2.
  rewrite sumsq_scale by lra.
  rewrite sqrt_div_alt by nra.
  rewrite sqrt_square by lra. reflexivity.
Qed.

Lemma normalize_row_norm (v : list R) :
  norm2 (normalize_row v) = norm2 v / Rmax (norm2 v) eps.
Proof.
  unfold normalize_row. apply norm2_scale.
  pose proof eps_pos. pose proof (Rmax_r (norm2 v) eps). lra.
Qed.

Lemma normalize_row_unit (v : list R) :
  eps <= norm2 v -> norm2 (normalize_row v) = 1.
Proof.
  intros Hbig. rewrite normalize_row_norm, Rmax_left by exact Hbig.
  pose proof eps_pos. field. lra.
Qed.

Lemma normalize_row_small (v : list R) :
  norm2 v < eps -> norm2 (normalize_row v) = norm2 v / eps.
Proof.
  intros Hsmall. rewrite normalize_row_norm, Rmax_right by lra. reflexivity.
Qed.

Lemma normalize_row_length (v : list R) :
  length (normalize_row v) = length v.
Proof. unfold normalize_row. apply length_map. Qed.

Lemma sumexp_nonneg (v : list R) : 0 <= sumexp v.
Proof.
  induction v as [|x tl IH]; simpl; [lra|].
  pose proof (exp_pos x). lra.
Qed.

(** The softmax of two logits: two weights in [0,1] that sum to 1. *)
Lemma softmax_row_pair (a b : R) :
  exists w0 w1,
    softmax_row [a; b] = [w0; w1]
    /\ 0 <= w0 <= 1 /\ 0 <= w1 <= 1 /\ w0 + w1 = 1.
Proof.
  pose proof (exp_pos a) as Ha. pose proof (exp_pos b) as Hb.
  exists (exp a / (exp a + (exp b + 0))), (exp b / (exp a + (exp b + 0))).
  assert (Hs : 0 < exp a + (exp b + 0)) by lra.
  split; [reflexivity|].
  assert (H0 : 0 < exp a / (exp a + (exp b + 0))) by (apply Rdiv_lt_0_compat; lra).
  assert (H1 : 0 < exp b / (exp a + (exp b + 0))) by (apply Rdiv_lt_0_compat; lra).
  assert (Hsum : exp a / (exp a + (exp b + 0)) + exp b / (exp a + (exp b + 0)) = 1)
    by (field; lra).
  repeat split; lra.
Qed.

(** *** Linear layers and the fusion modules *)

Lemma Linear_row_ok (l : Linear) (x : list R) :
  length x = in_features l ->
  exists y, Linear_row l x = Ok y /\ length y = out_features l.
Proof.
  intros Hlen. unfold Linear_row.
  rewrite (proj2 (Nat.eqb_eq _ _) Hlen).
  eexists. split; [reflexivity|].
  rewrite length_map, length_seq. reflexivity.
Qed.

Lemma Linear_forward_ok (l : Linear) (z : list (list R)) (b : nat) :
  rows b (in_features l) z ->
  exists y, Linear_forward l z = Ok y /\ rows b (out_features l) y.
Proof.
  unfold Linear_forward, rows. revert b.
  induction z as [|x tl IH]; intros b [Hb HF]; simpl in *.
  - exists []. repeat split; auto.
  - inversion HF as [|? ? Hx Htl]; subst.
    destruct (Linear_row_ok l x Hx) as [y [Ey Ly]].
    destruct (IH (length tl) (conj eq_refl Htl)) as [ys [Eys [Lys Fys]]].
    exists (y :: ys). rewrite Ey, Eys. simpl.
    repeat split; auto.
Qed.

Lemma relu2_rows (b d : nat) (z : list (list R)) :
  rows b d z -> rows b d (relu2 z).
Proof.
  unfold rows, relu2. intros [Hb HF]. split.
  - rewrite length_map. exact Hb.
  - apply Forall_map. eapply Forall_impl; [|exact HF].
    intros r Hr. simpl. rewrite length_map. exact Hr.
Qed.

Lemma cat_last_ok (a b : list (list R)) (n da db : nat) :
  rows n da a -> rows n db b ->
  exists z, cat_last a b = Ok z /\ rows n (da + db) z
            /\ z = map (fun ab => fst ab ++ snd ab) (combine a b).
Proof.
  unfold rows. intros [La Fa] [Lb Fb].
  eexists. split; [|split; [|reflexivity]].
  - unfold cat_last. rewrite (rzip_total (fun ra rb => ra ++ rb)) by lia.
    reflexivity.
  - split.
    + rewrite length_map, length_combine. lia.
    + apply Forall_map. apply Forall_forall. intros [ra rb] Hin. simpl.
      rewrite length_app. rewrite Forall_forall in Fa, Fb.
      rewrite (Fa ra), (Fb rb); [reflexivity| |].
      * eapply in_combine_r; exact Hin.
      * eapply in_combine_l; exact Hin.
Qed.

Lemma F_normalize_rows (b d : nat) (z : list (list R)) :
  rows b d z -> rows b d (F_normalize z).
Proof.
  unfold rows, F_normalize. intros [Hb HF]. split.
  - rewrite length_map. exact Hb.
  - apply Forall_map. eapply Forall_impl; [|exact HF].
    intros r Hr. simpl. rewrite normalize_row_length. exact Hr.
Qed.

Lemma normalize_row_spec (v : list R) : unit_or_small v (normalize_row v).
Proof.
  split; [apply normalize_row_unit|]. split; [|apply normalize_row_small].
  intros Hbig. rewrite (normalize_row_unit v Hbig).
  replace (1 - 1) with 0 by ring. rewrite Rabs_R0.
  apply Rlt_le, Rinv_0_lt_compat. lra.
Qed.

Lemma F_normalize_spec (z : list (list R)) :
  Forall2 unit_or_small z (F_normalize z).
Proof.
  induction z as [|r tl IH]; simpl; constructor; auto.
  apply normalize_row_spec.
Qed.

Lemma FusionMLP_forward_ok (d : nat) (th : MLPParams)
  (z_mask z_img : list (list R)) (b : nat) :
  rows b d z_mask -> rows b d z_img ->
  exists z y,
    cat_last z_mask z_img = Ok z
    /\ FusionMLP_proj (FusionMLP_init d th) z = Ok y
    /\ rows b d y
    /\ FusionMLP_forward (FusionMLP_init d th) z_mask z_img
       = Ok (F_normalize y).
Proof.
  intros Hm Hi.
  destruct (cat_last_ok _ _ _ _ _ Hm Hi) as [z [Ez [Rz _]]].
  replace (d + d)%nat with (d * 2)%nat in Rz by lia.
  destruct (Linear_forward_ok (mlp_proj1 (FusionMLP_init d th)) z b Rz)
    as [h [Eh Rh]].
  apply relu2_rows in Rh.
  destruct (Linear_forward_ok (mlp_proj2 (FusionMLP_init d th)) _ b Rh)
    as [y [Ey Ry]].
  exists z, y. unfold FusionMLP_forward, FusionMLP_proj.
  rewrite Ez. cbn [rbind]. rewrite Eh. cbn [rbind]. rewrite Ey. cbn [rbind].
  repeat split; auto; apply Ry.
Qed.

Lemma softmax_rows_two (logits : list (list R)) (b : nat) :
  rows b 2 logits ->
  length (softmax logits) = b /\ Forall two_weights (softmax logits).
Proof.
  unfold rows, softmax. intros [Hb HF]. split.
  - rewrite length_map. exact Hb.
  - apply Forall_map. eapply Forall_impl; [|exact HF].
    intros r Hr. simpl.
    destruct r as [|a [|c [|e tl]]]; simpl in Hr; try discriminate.
    apply softmax_row_pair.
Qed.

(** The three broadcasting products and the concatenation of lines 77-79,
    on weights of two columns. *)
Lemma attention_scaling (w z_mask z_img : list (list R)) :
  Forall two_weights w ->
  length z_mask = length w -> length z_img = length w ->
  exists zm zi fused,
    mul2 (slice_dim1 0 1 w) z_mask = Ok zm
    /\ mul2 (slice_dim1 1 2 w) z_img = Ok zi
    /\ cat_last zm zi = Ok fused
    /\ scaled_concat w z_mask z_img fused.
Proof.
  intros Hw Lm Li. unfold mul2.
  rewrite !bcast_same_length by (unfold slice_dim1; rewrite length_map; lia).
  unfold cat_last. revert z_mask z_img Lm Li.
  induction Hw as [|r ws [w0 [w1 [-> _]]] _ IH]; intros [|m zms] [|i zis] Lm Li;
    simpl in *; try discriminate.
  - exists [], [], []. repeat split; constructor.
  - destruct (IH zms zis) as [zm [zi [fs [Em [Ei [Ef Hs]]]]]]; [lia|lia|].
    exists (map (Rmult w0) m :: zm), (map (Rmult w1) i :: zi),
      ((map (Rmult w0) m ++ map (Rmult w1) i) :: fs).
    unfold slice. simpl.
    change (rmul w0) with (fun y : R => Ok (Rmult w0 y)).
    change (rmul w1) with (fun y : R => Ok (Rmult w1 y)).
    rewrite !rmapM_total. cbn [rbind].
    rewrite Em, Ei, Ef. cbn [rbind].
    repeat split. constructor. exact Hs.
Qed.

Lemma scaled_concat_rows (w z_mask z_img fused : list (list R)) (b d : nat) :
  scaled_concat w z_mask z_img fused ->
  rows b d z_mask -> rows b d z_img -> rows b (d * 2) fused.
Proof.
  unfold rows. intros Hs. revert b.
  induction Hs as [|w0 w1 zm zi ws zms zis fs _ IH]; intros b [Lm Fm] [Li Fi].
  - simpl in *. split; auto.
  - inversion Fm; inversion Fi; subst. simpl.
    destruct (IH (length zms)) as [Lf Ff]; [split; auto|split; auto; simpl in *; lia|].
    split; [lia|]. constructor; [|exact Ff].
    rewrite length_app, !length_map. lia.
Qed.

Lemma FusionAttention_forward_ok (d : nat) (th : AttnParams)
  (z_mask z_img : list (list R)) (b : nat) :
  rows b d z_mask -> rows b d z_img ->
  exists w fused y,
    FusionAttention_weights (FusionAttention_init d th) z_mask z_img = Ok w
    /\ length w = b
    /\ Forall two_weights w
    /\ scaled_concat w z_mask z_img fused
    /\ Linear_forward (attn_proj (FusionAttention_init d th)) fused = Ok y
    /\ rows b d y
    /\ FusionAttention_forward (FusionAttention_init d th) z_mask z_img
       = Ok (F_normalize y).
Proof.
  intros Hm Hi.
  destruct (cat_last_ok _ _ _ _ _ Hm Hi) as [z [Ez [Rz _]]].
  replace (d + d)%nat with (d * 2)%nat in Rz by lia.
  destruct (Linear_forward_ok (attn1 (FusionAttention_init d th)) z b Rz)
    as [h [Eh Rh]].
  apply relu2_rows in Rh.
  destruct (Linear_forward_ok (attn2 (FusionAttention_init d th)) _ b Rh)
    as [logits [El Rl]].
  destruct (softmax_rows_two logits b Rl) as [Lw Fw].
  destruct (attention_scaling (softmax logits) z_mask z_img Fw)
    as [zm [zi [fused [Em [Ei [Ef Hs]]]]]];
    [destruct Hm; lia|destruct Hi; lia|].
  pose proof (scaled_concat_rows _ _ _ _ b d Hs Hm Hi) as Rf.
  destruct (Linear_forward_ok (attn_proj (FusionAttention_init d th)) fused b Rf)
    as [y [Ey Ry]].
  exists (softmax logits), fused, y.
  unfold FusionAttention_weights, FusionAttention_forward, FusionAttention_attn.
  rewrite Ez. cbn [rbind]. rewrite Eh. cbn [rbind]. rewrite El. cbn [rbind].
  cbv zeta. rewrite Em. cbn [rbind]. rewrite Ei. cbn [rbind].
  rewrite Ef. cbn [rbind]. rewrite Ey. cbn [rbind].
  repeat split; auto; apply Ry.
Qed.

Lemma softmax_rows_of_logits (logits : list (list R)) (b : nat) :
  rows b 2 logits -> Forall2 softmax_pair logits (softmax logits).
Proof.
  unfold rows, softmax. intros [_ HF].
  induction HF as [|l tl Hl _ IH]; simpl; constructor; [|exact IH].
  destruct l as [|l0 [|l1 [|l2 rest]]]; simpl in Hl; try discriminate.
  exists l0, l1. split; [reflexivity|].
  unfold softmax_row, sumexp. simpl. rewrite Rplus_0_r. reflexivity.
Qed.

(** C3: on two [(B,D)] embeddings, the attention fusion computes per
    sample two logits, by its [attn] layers from the concatenated row, and
    takes their softmax: the weights are exp(l0) / (exp(l0) + exp(l1)) and
    exp(l1) / (exp(l0) + exp(l1)).  Each weight lies in [0,1] and the pair
    sums to 1 whatever the logits; every entry of a sample's mask embedding
    is multiplied by its first weight and every entry of its image
    embedding by its second, and the concatenation of the two scaled rows
    is what is projected and normalised. *)
Theorem FusionAttention_scalar_softmax_weights
  (d : nat) (th : AttnParams) (z_mask z_img : mat) (b : nat) :
  rows b d z_mask -> rows b d z_img ->
  exists logits w fused y,
    FusionAttention_attn (FusionAttention_init d th)
      (map (fun ab => fst ab ++ snd ab) (combine z_mask z_img)) = Ok logits
    /\ rows b 2 logits
    /\ Forall2 softmax_pair logits w
    /\ FusionAttention_weights (FusionAttention_init d th) z_mask z_img = Ok w
    /\ length w = b
    /\ Forall two_weights w
    /\ scaled_concat w z_mask z_img fused
    /\ Linear_forward (attn_proj (FusionAttention_init d th)) fused = Ok y
    /\ FusionAttention_forward (FusionAttention_init d th) z_mask z_img
       = Ok (F_normalize y).
Proof.
  intros Hm Hi.
  destruct (cat_last_ok _ _ _ _ _ Hm Hi) as [z [Ez [Rz Dz]]].
  replace (d + d)%nat with (d * 2)%nat in Rz by lia.
  destruct (Linear_forward_ok (attn1 (FusionAttention_init d th)) z b Rz)
    as [h [Eh Rh]].
  apply relu2_rows in Rh.
  destruct (Linear_forward_ok (attn2 (FusionAttention_init d th)) _ b Rh)
    as [logits [El Rl]].
  destruct (softmax_rows_two logits b Rl) as [Lw Fw].
  destruct (attention_scaling (softmax logits) z_mask z_img Fw)
    as [zm [zi [fused [Em [Ei [Ef Hs]]]]]];
    [destruct Hm; lia|destruct Hi; lia|].
  pose proof (scaled_concat_rows _ _ _ _ b d Hs Hm Hi) as Rf.
  destruct (Linear_forward_ok (attn_proj (FusionAttention_init d th)) fused b Rf)
    as [y [Ey Ry]].
  assert (Ea : FusionAttention_attn (FusionAttention_init d th) z = Ok logits).
  { unfold FusionAttention_attn. rewrite Eh. cbn [rbind]. exact El. }
  exists logits, (softmax logits), fused, y.
  rewrite <- Dz.
  split; [exact Ea|]. split; [exact Rl|].
  split; [exact (softmax_rows_of_logits logits b Rl)|].
  unfold FusionAttention_weights, FusionAttention_forward.
  rewrite Ez. cbn [rbind]. rewrite Ea. cbn [rbind].
  cbv zeta. rewrite Em. cbn [rbind]. rewrite Ei. cbn [rbind].
  rewrite Ef. cbn [rbind]. rewrite Ey. cbn [rbind].
  repeat split; auto.
Qed.

(** *** The image encoder *)

Lemma grid_shape {A} (f : nat -> nat -> A) (h w : nat) :
  (1 <= h)%nat ->
  length (map (fun y => map (fun x => f y x) (seq 0 w)) (seq 0 h)) = h
  /\ length (hd [] (map (fun y => map (fun x => f y x) (seq 0 w)) (seq 0 h)))
     = w.
Proof.
  intros Hh. split.
  - rewrite length_map, length_seq. reflexivity.
  - destruct h as [|n]; [lia|]. simpl. rewrite length_map, length_seq.
    reflexivity.
Qed.

Lemma rmapM_shaped {A B} (f : A -> result B) (P : A -> Prop) (Q : B -> Prop)
  (l : list A) :
  (forall a, P a -> exists b, f a = Ok b /\ Q b) ->
  Forall P l ->
  exists r, rmapM f l = Ok r /\ Forall Q r /\ length r = length l.
Proof.
  intros Hf. induction 1 as [|a tl Ha _ IH]; simpl.
  - exists []. repeat split; auto.
  - destruct (Hf a Ha) as [b [Eb Qb]]. destruct IH as [r [Er [Qr Lr]]].
    exists (b :: r). rewrite Eb, Er. simpl. repeat split; auto.
Qed.

Lemma Conv2d_sample_shape (c : Conv2d) (s : list (list (list R))) (h w : nat) :
  kernel_size c = 3%nat -> padding c = 1%nat ->
  (1 <= out_channels c)%nat -> (1 <= h)%nat -> (1 <= w)%nat ->
  shaped3 (in_channels c) h w s ->
  exists y, Conv2d_sample c s = Ok y /\ shaped3 (out_channels c) h w y.
Proof.
  intros Hk Hp Ho Hh Hw Hs. unfold shaped3, sample_shape in Hs.
  pose proof (f_equal fst Hs) as Hc. pose proof (f_equal snd Hs) as Hpl.
  simpl in Hc, Hpl. unfold Conv2d_sample.
  rewrite Hc, Nat.eqb_refl, Hpl, Hk, Hp.
  replace (h + 2 * 1 + 1 - 3)%nat with h by lia.
  replace (w + 2 * 1 + 1 - 3)%nat with w by lia.
  destruct (Nat.eqb h 0) eqn:Eh; [apply Nat.eqb_eq in Eh; lia|].
  destruct (Nat.eqb w 0) eqn:Ew; [apply Nat.eqb_eq in Ew; lia|].
  simpl orb. cbv iota. eexists. split; [reflexivity|].
  unfold shaped3, sample_shape, plane_shape.
  rewrite length_map, length_seq.
  destruct (out_channels c) as [|n]; [lia|]. simpl hd.
  destruct (grid_shape (conv_at c s 0) h w Hh) as [G1 G2].
  rewrite G1, G2. reflexivity.
Qed.

Lemma relu3_shape (s : list (list (list R))) (c h w : nat) :
  shaped3 c h w s -> shaped3 c h w (relu3 s).
Proof.
  unfold shaped3, sample_shape, plane_shape, relu3. intros Hs.
  rewrite length_map.
  destruct s as [|pl tl]; simpl in *; [exact Hs|].
  rewrite length_map.
  destruct pl as [|r rs]; simpl in *; [exact Hs|].
  rewrite length_map. exact Hs.
Qed.

Lemma MaxPool2d_sample_shape (s : list (list (list R))) (c h w : nat) :
  (1 <= c)%nat -> (2 <= h)%nat -> (2 <= w)%nat ->
  shaped3 c h w s ->
  exists y, MaxPool2d_sample 2 s = Ok y /\ shaped3 c (h / 2) (w / 2) y.
Proof.
  intros Hc Hh Hw Hs. unfold shaped3, sample_shape in Hs.
  pose proof (f_equal fst Hs) as Lc. pose proof (f_equal snd Hs) as Hpl.
  simpl in Lc, Hpl. unfold MaxPool2d_sample. rewrite Hpl.
  assert (H2 : (1 <= h / 2)%nat) by (apply Nat.div_le_lower_bound; lia).
  assert (W2 : (1 <= w / 2)%nat) by (apply Nat.div_le_lower_bound; lia).
  destruct (Nat.eqb (h / 2) 0) eqn:Eh; [apply Nat.eqb_eq in Eh; lia|].
  destruct (Nat.eqb (w / 2) 0) eqn:Ew; [apply Nat.eqb_eq in Ew; lia|].
  simpl orb. cbv iota. eexists. split; [reflexivity|].
  unfold shaped3, sample_shape, plane_shape. rewrite length_map.
  destruct s as [|pl tl]; [simpl in Lc; lia|]. cbn [hd map].
  destruct (grid_shape (fun y x => maxl (window 2 pl y x)) (h / 2) (w / 2) H2)
    as [G1 G2].
  rewrite G1, G2, Lc. reflexivity.
Qed.

Lemma conv_layer_ok (c : Conv2d) (x : list (list (list (list R)))) (h w : nat) :
  kernel_size c = 3%nat -> padding c = 1%nat ->
  (1 <= out_channels c)%nat -> (1 <= h)%nat -> (1 <= w)%nat ->
  Forall (shaped3 (in_channels c) h w) x ->
  exists y, layer_forward (LConv2d c) x = Ok y
            /\ Forall (shaped3 (out_channels c) h w) y
            /\ length y = length x.
Proof.
  intros Hk Hp Ho Hh Hw. simpl. apply rmapM_shaped.
  intros s. apply Conv2d_sample_shape; assumption.
Qed.

Lemma relu_layer_ok (x : list (list (list (list R)))) (c h w : nat) :
  Forall (shaped3 c h w) x ->
  exists y, layer_forward LReLU x = Ok y
            /\ Forall (shaped3 c h w) y /\ length y = length x.
Proof.
  intros HF. exists (map relu3 x). simpl. repeat split.
  - apply Forall_map. eapply Forall_impl; [|exact HF].
    intros s. apply relu3_shape.
  - apply length_map.
Qed.

Lemma pool_layer_ok (x : list (list (list (list R)))) (c h w : nat) :
  (1 <= c)%nat -> (2 <= h)%nat -> (2 <= w)%nat ->
  Forall (shaped3 c h w) x ->
  exists y, layer_forward (LMaxPool2d 2) x = Ok y
            /\ Forall (shaped3 c (h / 2) (w / 2)) y /\ length y = length x.
Proof.
  intros Hc Hh Hw. simpl. apply rmapM_shaped.
  intros s. apply MaxPool2d_sample_shape; assumption.
Qed.

Lemma SmallImageEncoder_net_ok (d width : nat) (th : ImageParams)
  (x : list (list (list (list R)))) (h w : nat) :
  (1 <= width)%nat -> (4 <= h)%nat -> (4 <= w)%nat ->
  Forall (shaped3 3 h w) x ->
  exists z,
    Sequential_forward (net (SmallImageEncoder_init d width th)) x = Ok z
    /\ Forall (shaped3 (width * 2) (h / 2 / 2) (w / 2 / 2)) z
    /\ length z = length x.
Proof.
  intros Hwd Hh Hw F0.
  assert (H2 : (2 <= h / 2)%nat) by (apply Nat.div_le_lower_bound; lia).
  assert (W2 : (2 <= w / 2)%nat) by (apply Nat.div_le_lower_bound; lia).
  assert (H4 : (1 <= h / 2 / 2)%nat) by (apply Nat.div_le_lower_bound; lia).
  assert (W4 : (1 <= w / 2 / 2)%nat) by (apply Nat.div_le_lower_bound; lia).
  cbn [net SmallImageEncoder_init Sequential_forward].
  destruct (conv_layer_ok (mkConv2d 3 width 3 1 (k1 th) (b1 th)) x h w)
    as [x1 [E1 [F1 L1]]]; try reflexivity; try assumption; try (cbn [out_channels in_channels]; lia).
  rewrite E1. cbn [rbind].
  destruct (relu_layer_ok x1 _ _ _ F1) as [x2 [E2 [F2 L2]]].
  rewrite E2. cbn [rbind].
  destruct (conv_layer_ok (mkConv2d width width 3 1 (k2 th) (b2 th)) x2 h w)
    as [x3 [E3 [F3 L3]]]; try reflexivity; try assumption; try (cbn [out_channels in_channels]; lia).
  rewrite E3. cbn [rbind].
  destruct (relu_layer_ok x3 _ _ _ F3) as [x4 [E4 [F4 L4]]].
  rewrite E4. cbn [rbind].
  destruct (pool_layer_ok x4 _ h w Hwd ltac:(lia) ltac:(lia) F4)
    as [x5 [E5 [F5 L5]]].
  rewrite E5. cbn [rbind].
  destruct (conv_layer_ok (mkConv2d width (width * 2) 3 1 (k3 th) (b3 th))
              x5 (h / 2) (w / 2))
    as [x6 [E6 [F6 L6]]]; try reflexivity; try assumption; try (cbn [out_channels in_channels]; lia).
  rewrite E6. cbn [rbind].
  destruct (relu_layer_ok x6 _ _ _ F6) as [x7 [E7 [F7 L7]]].
  rewrite E7. cbn [rbind].
  destruct (pool_layer_ok x7 (width * 2) (h / 2) (w / 2)
              ltac:(lia) H2 W2 F7)
    as [x8 [E8 [F8 L8]]].
  rewrite E8. cbn [rbind].
  destruct (conv_layer_ok
              (mkConv2d (width * 2) (width * 2) 3 1 (k4 th) (b4 th))
              x8 (h / 2 / 2) (w / 2 / 2))
    as [x9 [E9 [F9 L9]]]; try reflexivity; try assumption; try (cbn [out_channels in_channels]; lia).
  rewrite E9. cbn [rbind].
  destruct (relu_layer_ok x9 _ _ _ F9) as [x10 [E10 [F10 L10]]].
  rewrite E10. cbn [rbind].
  exists x10. repeat split; [exact F10|]. simpl in *. lia.
Qed.

Lemma avgpool_flatten_rows (z : list (list (list (list R)))) (c h w : nat) :
  Forall (shaped3 c h w) z -> rows (length z) c (map avgpool_flatten z).
Proof.
  intros HF. split; [apply length_map|].
  apply Forall_map. eapply Forall_impl; [|exact HF].
  intros s Hs. unfold avgpool_flatten. rewrite length_map.
  exact (f_equal fst Hs).
Qed.

Lemma SmallImageEncoder_forward_ok (d width : nat) (th : ImageParams)
  (x : list (list (list (list R)))) (h w : nat) :
  (1 <= width)%nat -> (4 <= h)%nat -> (4 <= w)%nat ->
  Forall (shaped3 3 h w) x ->
  exists y,
    SmallImageEncoder_features (SmallImageEncoder_init d width th) x = Ok y
    /\ rows (length x) d y
    /\ SmallImageEncoder_forward (SmallImageEncoder_init d width th) x
       = Ok (F_normalize y).
Proof.
  intros Hwd Hh Hw F0.
  destruct (SmallImageEncoder_net_ok d width th x h w Hwd Hh Hw F0)
    as [z [Ez [Fz Lz]]].
  pose proof (avgpool_flatten_rows z _ _ _ Fz) as Rz.
  destruct (Linear_forward_ok (head (SmallImageEncoder_init d width th))
              (map avgpool_flatten z) (length z) Rz) as [y [Ey Ry]].
  exists y. unfold SmallImageEncoder_features, SmallImageEncoder_forward.
  rewrite Ez. cbn [rbind]. rewrite Ey. cbn [rbind].
  rewrite <- Lz. repeat split; auto; apply Ry.
Qed.

(** A [(c,h,w)] sample with at least one channel and one row records its
    extents in its first plane. *)
Lemma rect3_shaped3 (c h w : nat) (s : list (list (list R))) :
  (1 <= c)%nat -> (1 <= h)%nat -> rect3 c h w s -> shaped3 c h w s.
Proof.
  intros Hc Hh [Lc HF]. unfold shaped3, sample_shape, plane_shape.
  destruct s as [|pl tl]; [simpl in Lc; lia|].
  inversion HF as [|? ? [Lp Fp] _]; subst. simpl hd.
  destruct pl as [|r rs]; [simpl in Hh; lia|].
  inversion Fp as [|? ? Lr _]; subst. reflexivity.
Qed.

(** C2, as the code has it: the image encoder of width at least 1 on a
    [(B,3,H,W)] batch with H and W at least 4, and either fusion on two
    [(B,D)] embeddings, return a [(B,D)] matrix, the row-wise [F.normalize]
    of what the last linear layer gives.  A row has L2 norm 1, so 1 within
    the tolerance 1e-5, when the row before normalisation has norm at least
    1e-12; a shorter row is divided by 1e-12, so a zero row stays zero. *)
Theorem embeddings_unit_norm_above_eps :
  (forall (d width : nat) (th : ImageParams) (x : batch) (b h w : nat),
      (1 <= width)%nat -> (4 <= h)%nat -> (4 <= w)%nat ->
      rect4 b 3 h w x ->
      exists y,
        SmallImageEncoder_features (SmallImageEncoder_init d width th) x = Ok y
        /\ SmallImageEncoder_forward (SmallImageEncoder_init d width th) x
           = Ok (F_normalize y)
        /\ rows b d (F_normalize y)
        /\ Forall2 unit_or_small y (F_normalize y))
  /\ (forall (d : nat) (th : MLPParams) (z_mask z_img : mat) (b : nat),
      rows b d z_mask -> rows b d z_img ->
      exists z y,
        cat_last z_mask z_img = Ok z
        /\ FusionMLP_proj (FusionMLP_init d th) z = Ok y
        /\ FusionMLP_forward (FusionMLP_init d th) z_mask z_img
           = Ok (F_normalize y)
        /\ rows b d (F_normalize y)
        /\ Forall2 unit_or_small y (F_normalize y))
  /\ (forall (d : nat) (th : AttnParams) (z_mask z_img : mat) (b : nat),
      rows b d z_mask -> rows b d z_img ->
      exists w fused y,
        FusionAttention_weights (FusionAttention_init d th) z_mask z_img = Ok w
        /\ scaled_concat w z_mask z_img fused
        /\ Linear_forward (attn_proj (FusionAttention_init d th)) fused = Ok y
        /\ FusionAttention_forward (FusionAttention_init d th) z_mask z_img
           = Ok (F_normalize y)
        /\ rows b d (F_normalize y)
        /\ Forall2 unit_or_small y (F_normalize y)).
Proof.
  split; [|split].
  - intros d width th x b h w Hwd Hh Hw [Lx Fx].
    destruct (SmallImageEncoder_forward_ok d width th x h w Hwd Hh Hw)
      as [y [Ey [Ry Ef]]].
    { eapply Forall_impl; [|exact Fx].
      intros s. apply rect3_shaped3; lia. }
    exists y. rewrite Lx in Ry. repeat split; auto.
    + apply (F_normalize_rows _ _ _ Ry).
    + apply (F_normalize_rows _ _ _ Ry).
    + apply F_normalize_spec.
  - intros d th z_mask z_img b Hm Hi.
    destruct (FusionMLP_forward_ok d th z_mask z_img b Hm Hi)
      as [z [y [Ez [Ey [Ry Ef]]]]].
    exists z, y. repeat split; auto.
    + apply (F_normalize_rows _ _ _ Ry).
    + apply (F_normalize_rows _ _ _ Ry).
    + apply F_normalize_spec.
  - intros d th z_mask z_img b Hm Hi.
    destruct (FusionAttention_forward_ok d th z_mask z_img b Hm Hi)
      as [w [fused [y [Ew [_ [_ [Hs [Ey [Ry Ef]]]]]]]]].
    exists w, fused, y. repeat split; auto.
    + apply (F_normalize_rows _ _ _ Ry).
    + apply (F_normalize_rows _ _ _ Ry).
    + apply F_normalize_spec.
Qed.

(** *** The masked image *)

Lemma zipw_length {A B C} (g : A -> B -> C) (la : list A) (lb : list B)
  (n : nat) :
  length la = n -> length lb = n -> length (zipw g la lb) = n.
Proof.
  intros La Lb. unfold zipw. rewrite length_map, length_combine. lia.
Qed.

Lemma zipw_Forall {A B C} (g : A -> B -> C) (P : C -> Prop)
  (la : list A) (lb : list B) :
  (forall a b, In a la -> In b lb -> P (g a b)) -> Forall P (zipw g la lb).
Proof.
  intros Hg. unfold zipw. apply Forall_map. apply Forall_forall.
  intros [a b] Hin. simpl. apply Hg.
  - eapply in_combine_l; exact Hin.
  - eapply in_combine_r; exact Hin.
Qed.

Lemma nth_error_zipw {A B C} (g : A -> B -> C) (la : list A) (lb : list B)
  (n : nat) (a : A) (b : B) :
  nth_error la n = Some a -> nth_error lb n = Some b ->
  nth_error (zipw g la lb) n = Some (g a b).
Proof.
  revert la lb. induction n as [|n IH]; intros [|a' ta] [|b' tb] Ha Hb;
    simpl in *; try discriminate.
  - inversion Ha; inversion Hb; subst. reflexivity.
  - apply IH; assumption.
Qed.

Lemma mul_rows (r cr : list R) (w : nat) :
  length r = w -> length cr = w -> bcast rmul r cr = Ok (zipw Rmult r cr).
Proof.
  intros Lr Lc. rewrite bcast_same_length by lia.
  unfold rmul. apply (rzip_total Rmult). lia.
Qed.

Lemma mul_planes (a cm : list (list R)) (h w : nat) :
  rows h w a -> rows h w cm ->
  bcast (bcast rmul) a cm = Ok (zipw (zipw Rmult) a cm).
Proof.
  intros [La Fa] [Lc Fc]. rewrite bcast_same_length by lia.
  apply (rzip_Forall (bcast rmul) (zipw Rmult)); [lia|].
  apply Forall_forall. intros [r cr] Hin. simpl.
  rewrite Forall_forall in Fa, Fc.
  apply (mul_rows r cr w).
  - apply Fa. eapply in_combine_l; exact Hin.
  - apply Fc. eapply in_combine_r; exact Hin.
Qed.

Lemma mul_channels (s : list (list (list R))) (cm : list (list R)) (h w : nat) :
  Forall (rows h w) s -> rows h w cm ->
  bcast (bcast (bcast rmul)) s [cm]
  = Ok (map (fun a => zipw (zipw Rmult) a cm) s).
Proof.
  intros Fs Rc. rewrite bcast_right_one.
  apply rmapM_Forall. eapply Forall_impl; [|exact Fs].
  intros a Ra. apply (mul_planes a cm h w); assumption.
Qed.

Lemma mul4_masked_by (x mc : list (list (list (list R)))) (b c h w : nat) :
  rect4 b c h w x -> rect4 b 1 h w mc -> mul4 x mc = Ok (masked_by x mc).
Proof.
  intros [Lx Fx] [Lm Fm]. unfold mul4, masked_by.
  rewrite bcast_same_length by lia.
  apply (rzip_Forall (bcast (bcast (bcast rmul)))
           (fun s ms => map (fun a => zipw (zipw Rmult) a (hd [] ms)) s));
    [lia|].
  apply Forall_forall. intros [s ms] Hin. simpl.
  rewrite Forall_forall in Fx, Fm.
  destruct (Fx s (in_combine_l _ _ _ _ Hin)) as [_ Fs].
  destruct (Fm ms (in_combine_r _ _ _ _ Hin)) as [L1 F1].
  destruct ms as [|cm [|cm' tl]]; simpl in L1; try discriminate.
  inversion F1; subst. simpl hd.
  apply (mul_channels s cm h w); assumption.
Qed.

Lemma rows_zipw_mul (a cm : list (list R)) (h w : nat) :
  rows h w a -> rows h w cm -> rows h w (zipw (zipw Rmult) a cm).
Proof.
  intros [La Fa] [Lc Fc]. split; [apply zipw_length; assumption|].
  apply zipw_Forall. intros r cr Hr Hc.
  rewrite Forall_forall in Fa, Fc. apply zipw_length; auto.
Qed.

Lemma rect4_masked_by (x mc : list (list (list (list R)))) (b c h w : nat) :
  rect4 b c h w x -> rect4 b 1 h w mc -> rect4 b c h w (masked_by x mc).
Proof.
  intros [Lx Fx] [Lm Fm]. split; [apply zipw_length; assumption|].
  apply zipw_Forall. intros s ms Hs Hms.
  rewrite Forall_forall in Fx, Fm.
  destruct (Fx s Hs) as [Ls Fs]. destruct (Fm ms Hms) as [L1 F1].
  destruct ms as [|cm [|cm' tl]]; simpl in L1; try discriminate.
  inversion F1 as [|? ? R0 _]. simpl hd. split.
  - rewrite length_map. exact Ls.
  - apply Forall_map. eapply Forall_impl; [|exact Fs].
    intros a Ra. apply rows_zipw_mul; assumption.
Qed.

Lemma mask_channel_rect4 (m : list (list (list (list R)))) (b h w : nat) :
  rect4 b 2 h w m -> rect4 b 1 h w (clamp4 0 1 (slice_dim1 0 1 m)).
Proof.
  intros [Lm Fm]. unfold clamp4, slice_dim1. split.
  - rewrite !length_map. exact Lm.
  - rewrite map_map. apply Forall_map. eapply Forall_impl; [|exact Fm].
    intros ms [L2 F2].
    destruct ms as [|m0 [|m1 [|m2 tl]]]; simpl in L2; try discriminate.
    inversion F2 as [|? ? [L0 F0] _]; subst.
    unfold slice. simpl. split; [reflexivity|].
    constructor; [|constructor]. split.
    + rewrite length_map. reflexivity.
    + apply Forall_map. eapply Forall_impl; [|exact F0].
      intros r Hr. simpl. rewrite length_map. exact Hr.
Qed.

(** Every entry of the masked image is the image entry times the clamped
    entry of channel 0 of the mask pair at the same sample and pixel. *)
Lemma masked_by_entry (x m : list (list (list (list R)))) (n c i j : nat)
  (v u : R) :
  at4 x n c i j = Some v -> at4 m n 0 i j = Some u ->
  at4 (masked_by x (clamp4 0 1 (slice_dim1 0 1 m))) n c i j
  = Some (v * clamp 0 1 u).
Proof.
  unfold at4. intros Hx Hm.
  destruct (nth_error x n) as [s|] eqn:Es; [|discriminate].
  destruct (nth_error s c) as [pl|] eqn:Ep; [|discriminate].
  destruct (nth_error pl i) as [r|] eqn:Er; [|discriminate].
  destruct (nth_error m n) as [ms|] eqn:Ems; [|discriminate].
  destruct (nth_error ms 0) as [m0|] eqn:Em0; [|discriminate].
  destruct (nth_error m0 i) as [mr|] eqn:Emr; [|discriminate].
  destruct ms as [|m0' tl]; simpl in Em0; [discriminate|].
  inversion Em0; subst m0'.
  unfold masked_by.
  rewrite (nth_error_zipw _ x _ n s
             (map (map (map (clamp 0 1))) (slice 0 1 (m0 :: tl)))); auto.
  2:{ unfold clamp4, slice_dim1. rewrite map_map.
      rewrite nth_error_map, Ems. reflexivity. }
  unfold slice. simpl hd.
  rewrite nth_error_map, Ep. simpl option_map. cbv iota beta.
  rewrite (nth_error_zipw _ pl _ i r (map (clamp 0 1) mr)); auto.
  2:{ rewrite nth_error_map, Emr. reflexivity. }
  rewrite (nth_error_zipw _ r _ j v (clamp 0 1 u)); auto.
  rewrite nth_error_map, Hm. reflexivity.
Qed.

(** *** The multimodal encoder *)

Lemma device_eqb_refl (d : device) : device_eqb d d = true.
Proof. destruct d; simpl; [reflexivity|apply Nat.eqb_refl]. Qed.

Lemma Fusion_forward_ok (c : MultiModalConfig) (th : InitParams)
  (z_mask z_img : list (list R)) (b : nat) :
  rows b (embed_dim c) z_mask -> rows b (embed_dim c) z_img ->
  exists z_fused,
    Fusion_forward
      (if String.eqb (fusion_tag c) "attn"
       then UseFusionAttention
              (FusionAttention_init (embed_dim c) (init_attn th))
       else UseFusionMLP (FusionMLP_init (embed_dim c) (init_mlp th)))
      z_mask z_img = Ok z_fused
    /\ rows b (embed_dim c) z_fused.
Proof.
  intros Hm Hi. destruct (String.eqb (fusion_tag c) "attn"); simpl.
  - destruct (FusionAttention_forward_ok _ (init_attn th) _ _ b Hm Hi)
      as [w [fused [y [_ [_ [_ [_ [_ [Ry Ef]]]]]]]]].
    exists (F_normalize y). split; [exact Ef|apply F_normalize_rows; exact Ry].
  - destruct (FusionMLP_forward_ok _ (init_mlp th) _ _ b Hm Hi)
      as [z [y [_ [_ [Ry Ef]]]]].
    exists (F_normalize y). split; [exact Ef|apply F_normalize_rows; exact Ry].
Qed.

Lemma MultiModalSymbolicEncoder_forward_ok
  (mask_enc : SmallMaskEncoder) (c : MultiModalConfig) (th : InitParams)
  (self : MultiModalSymbolicEncoder) (image mask_pair : Tensor4)
  (b h wd : nat) :
  MultiModalSymbolicEncoder_init mask_enc c th = Ok self ->
  (1 <= image_width c)%nat -> (4 <= h)%nat -> (4 <= wd)%nat ->
  t_device image = t_device mask_pair ->
  rect4 b 3 h wd (t_data image) ->
  rect4 b 2 h wd (t_data mask_pair) ->
  rows b (embed_dim c) (mask_enc mask_pair) ->
  exists masked z_img z_fused,
    mul4t image (mask_channel mask_pair) = Ok masked
    /\ t_data masked
       = masked_by (t_data image)
           (clamp4 0 1 (slice_dim1 0 1 (t_data mask_pair)))
    /\ rect4 b 3 h wd (t_data masked)
    /\ SmallImageEncoder_forward (image_encoder self) (t_data masked)
       = Ok z_img
    /\ rows b (embed_dim c) z_img
    /\ Fusion_forward (fusion self) (mask_enc mask_pair) z_img = Ok z_fused
    /\ rows b (embed_dim c) z_fused
    /\ forall w,
       MultiModalSymbolicEncoder_forward self image mask_pair w
       = (Ok (z_fused, mask_enc mask_pair, z_img),
          mkWorld (heap w)
            (calls w ++ [CallMaskEncoder mask_pair;
                         CallImageEncoder masked;
                         CallFusion (mask_enc mask_pair) z_img])).
Proof.
  intros Hinit Hwd Hh Hw Hdev Ri Rm Rz.
  inversion Hinit as [Hself]. clear Hinit.
  pose proof (mask_channel_rect4 _ _ _ _ Rm) as Rc.
  pose proof (mul4_masked_by _ _ _ _ _ _ Ri Rc) as Emul.
  pose proof (rect4_masked_by _ _ _ _ _ _ Ri Rc) as Rmasked.
  set (masked := mkTensor4 (t_device image)
                   (promote (t_dtype image) (t_dtype mask_pair))
                   (masked_by (t_data image)
                      (clamp4 0 1 (slice_dim1 0 1 (t_data mask_pair))))).
  assert (Emul4t : mul4t image (mask_channel mask_pair) = Ok masked).
  { unfold mul4t, mask_channel. simpl t_device. simpl t_data. simpl t_dtype.
    rewrite <- Hdev, device_eqb_refl, Emul. reflexivity. }
  destruct (SmallImageEncoder_forward_ok (embed_dim c) (image_width c)
              (init_image th) (t_data masked) h wd Hwd Hh Hw)
    as [y [_ [Ry Ey]]].
  { destruct Rmasked as [_ FR]. eapply Forall_impl; [|exact FR].
    intros s. apply rect3_shaped3; lia. }
  assert (Rzi : rows b (embed_dim c) (F_normalize y)).
  { apply F_normalize_rows. destruct Rmasked as [Lb _].
    simpl t_data in Ry. rewrite Lb in Ry. exact Ry. }
  destruct (Fusion_forward_ok c th (mask_enc mask_pair) (F_normalize y) b Rz Rzi)
    as [z_fused [Ef Rf]].
  exists masked, (F_normalize y), z_fused.
  split; [exact Emul4t|]. split; [reflexivity|]. split; [exact Rmasked|].
  split; [exact Ey|]. split; [exact Rzi|]. split; [exact Ef|].
  split; [exact Rf|]. intros w.
  unfold MultiModalSymbolicEncoder_forward.
  unfold bind, log, lift, ret. cbn [mask_encoder image_encoder fusion].
  rewrite Emul4t. cbn [heap calls]. rewrite Ey, Ef.
  rewrite <- !app_assoc. reflexivity.
Qed.

(** C6, as the code has it: on an image of shape [(B,3,H,W)] and a mask
    pair of shape [(B,2,H,W)] on one device, H and W at least 4, through an
    encoder of image width at least 1 whose mask encoder returns [(B,D)],
    the tensor handed to the image encoder holds, at every sample, channel
    and pixel, the image entry times the entry of channel 0 of the mask
    pair clamped to [0,1], min(max(u,0),1); the forward pass calls the mask
    encoder, the image encoder and the fusion, each once and in this order,
    and returns the three embeddings (fused, mask, image). *)
Theorem encoder_masks_image_and_returns_three
  (mask_enc : SmallMaskEncoder) (c : MultiModalConfig) (th : InitParams)
  (self : MultiModalSymbolicEncoder) (image mask_pair : Tensor4) (w : world)
  (b h wd : nat) :
  MultiModalSymbolicEncoder_init mask_enc c th = Ok self ->
  (1 <= image_width c)%nat -> (4 <= h)%nat -> (4 <= wd)%nat ->
  t_device image = t_device mask_pair ->
  rect4 b 3 h wd (t_data image) ->
  rect4 b 2 h wd (t_data mask_pair) ->
  rows b (embed_dim c) (mask_enc mask_pair) ->
  exists masked z_img z_fused,
    rect4 b 3 h wd (t_data masked)
    /\ (forall n ch i j v u,
          at4 (t_data image) n ch i j = Some v ->
          at4 (t_data mask_pair) n 0 i j = Some u ->
          at4 (t_data masked) n ch i j = Some (v * Rmin (Rmax u 0) 1))
    /\ SmallImageEncoder_forward (image_encoder self) (t_data masked)
       = Ok z_img
    /\ Fusion_forward (fusion self) (mask_enc mask_pair) z_img = Ok z_fused
    /\ MultiModalSymbolicEncoder_forward self image mask_pair w
       = (Ok (z_fused, mask_enc mask_pair, z_img),
          mkWorld (heap w)
            (calls w ++ [CallMaskEncoder mask_pair;
                         CallImageEncoder masked;
                         CallFusion (mask_enc mask_pair) z_img])).
Proof.
  intros Hinit Hwd Hh Hw Hdev Ri Rm Rz.
  destruct (MultiModalSymbolicEncoder_forward_ok mask_enc c th self image
              mask_pair b h wd Hinit Hwd Hh Hw Hdev Ri Rm Rz)
    as [masked [z_img [z_fused [_ [Ed [Rmk [Ei [_ [Ef [_ Efw]]]]]]]]]].
  exists masked, z_img, z_fused.
  split; [exact Rmk|]. split.
  - intros n ch i j v u Hv Hu. rewrite Ed.
    exact (masked_by_entry _ _ n ch i j v u Hv Hu).
  - repeat split; try assumption. apply Efw.
Qed.

(** *** The dual-view driver *)

Lemma promote_refl (d : dtype) : promote d d = d.
Proof. destruct d; reflexivity. Qed.

Lemma rows_plane_shape (pl : list (list R)) (h w : nat) :
  (1 <= h)%nat -> rows h w pl -> plane_shape pl = (h, w).
Proof.
  intros Hh [L F]. unfold plane_shape.
  destruct pl as [|r rs]; [simpl in L; lia|].
  inversion F as [|? ? Lr _]; subst. reflexivity.
Qed.

Lemma harden_rows (pl : list (list R)) (h w : nat) :
  rows h w pl -> rows h w (harden pl).
Proof.
  intros [L F]. unfold harden. split; [rewrite length_map; exact L|].
  apply Forall_map. eapply Forall_impl; [|exact F].
  intros r Hr. simpl. rewrite length_map. exact Hr.
Qed.

Lemma rzip_maps {A B C D} (g : B -> C -> result D) (f1 : A -> B) (f2 : A -> C)
  (k : A -> D) (l : list A) :
  Forall (fun a => g (f1 a) (f2 a) = Ok (k a)) l ->
  rzip g (map f1 l) (map f2 l) = Ok (map k l).
Proof.
  induction 1 as [|a tl Ha _ IH]; simpl; [reflexivity|].
  rewrite Ha, IH. reflexivity.
Qed.

Section Views.
Variables (p : Tensor4) (width : Z) (b h wd : nat).
Hypothesis Hh : (1 <= h)%nat.
Hypothesis Rp : rect4 b 1 h wd (t_data p).
Hypothesis Hband :
  forall m, rows h wd m -> rows h wd (boundary_band m width).

Lemma band_rows (s : list (list (list R))) :
  rect3 1 h wd s -> rows h wd (boundary_band (harden (hd [] s)) width).
Proof.
  intros [L F]. apply Hband, harden_rows.
  destruct s as [|pl tl]; [discriminate|].
  inversion F; subst. assumption.
Qed.

Lemma cat_global_view :
  cat_dim1 p (mkTensor4 (t_device p) (t_dtype p)
                (map (band_of width) (t_data p)))
  = Ok (global_view width p).
Proof.
  unfold cat_dim1, global_view. simpl t_device. simpl t_dtype. simpl t_data.
  rewrite device_eqb_refl, promote_refl.
  rewrite <- (map_id (t_data p)) at 1.
  rewrite (rzip_maps cat_sample (fun s => s) (band_of width)
             (fun s => s ++ band_of width s)); [reflexivity|].
  destruct Rp as [_ F]. eapply Forall_impl; [|exact F].
  intros s Rs. pose proof (band_rows s Rs) as Rb.
  destruct Rs as [L Fs].
  destruct s as [|pl [|pl' tl]]; simpl in L; try discriminate.
  inversion Fs as [|? ? Rpl _]; subst.
  unfold band_of, cat_sample. simpl hd in *.
  rewrite (rows_plane_shape _ _ _ Hh Rpl), (rows_plane_shape _ _ _ Hh Rb).
  unfold shape2_eqb. simpl. rewrite !Nat.eqb_refl. reflexivity.
Qed.

Lemma cat_boundary_view :
  cat_dim1 (mkTensor4 (t_device p) (t_dtype p)
              (map (band_of width) (t_data p)))
           (mkTensor4 (t_device p) (t_dtype p)
              (map (band_of width) (t_data p)))
  = Ok (boundary_view width p).
Proof.
  unfold cat_dim1, boundary_view. simpl t_device. simpl t_dtype. simpl t_data.
  rewrite device_eqb_refl, promote_refl.
  rewrite (rzip_maps cat_sample (band_of width) (band_of width)
             (fun s => band_of width s ++ band_of width s)); [reflexivity|].
  apply Forall_forall. intros s _.
  unfold band_of, cat_sample, shape2_eqb. rewrite !Nat.eqb_refl. reflexivity.
Qed.

Lemma global_view_rect4 : rect4 b 2 h wd (t_data (global_view width p)).
Proof.
  destruct Rp as [L F]. unfold global_view. simpl. split.
  - rewrite length_map. exact L.
  - apply Forall_map. eapply Forall_impl; [|exact F].
    intros s Rs. pose proof (band_rows s Rs) as Rb.
    destruct Rs as [Ls Fs]. split.
    + rewrite length_app, Ls. reflexivity.
    + apply Forall_app. split; [exact Fs|]. constructor; [exact Rb|constructor].
Qed.

Lemma boundary_view_rect4 : rect4 b 2 h wd (t_data (boundary_view width p)).
Proof.
  destruct Rp as [L F]. unfold boundary_view. simpl. split.
  - rewrite length_map. exact L.
  - apply Forall_map. eapply Forall_impl; [|exact F].
    intros s Rs. pose proof (band_rows s Rs) as Rb. split; [reflexivity|].
    constructor; [exact Rb|]. constructor; [exact Rb|constructor].
Qed.

Lemma boundary_from_prob_views (w : world) :
  (1 <= b)%nat ->
  boundary_from_prob p width w
  = (Ok (mkTensor4 (t_device p) (t_dtype p) (map (band_of width) (t_data p))),
     mkWorld (heap w) (calls w ++ map (band_call width) (t_data p))).
Proof.
  intros Hb. destruct Rp as [L F].
  apply (boundary_from_prob_ok p width w (h, wd)).
  - intros E. rewrite E in L. simpl in L. lia.
  - eapply Forall_impl; [|exact F]. intros s [Ls _] E. subst. discriminate.
  - eapply Forall_impl; [|exact F]. intros s Rs.
    apply rows_plane_shape; [exact Hh|]. apply band_rows. exact Rs.
Qed.

End Views.

Lemma compute_embeddings_ok
  (mask_enc : SmallMaskEncoder) (c : MultiModalConfig) (th : InitParams)
  (self : MultiModalSymbolicAlignment) (image p : Tensor4) (b h wd : nat) :
  MultiModalSymbolicEncoder_init mask_enc c th = Ok (encoder self) ->
  (1 <= b)%nat -> (1 <= image_width c)%nat -> (4 <= h)%nat -> (4 <= wd)%nat ->
  t_device image = t_device p ->
  rect4 b 3 h wd (t_data image) ->
  rect4 b 1 h wd (t_data p) ->
  (forall m, rows h wd m -> rows h wd (boundary_band m (boundary_width self))) ->
  (forall x, rect4 b 2 h wd (t_data x) -> rows b (embed_dim c) (mask_enc x)) ->
  exists zf_g zm_g zi_g zf_b zm_b zi_b trace_g trace_b,
    (forall w0,
       MultiModalSymbolicEncoder_forward (encoder self) image
         (global_view (boundary_width self) p) w0
       = (Ok (zf_g, zm_g, zi_g), mkWorld (heap w0) (calls w0 ++ trace_g)))
    /\ (forall w0,
       MultiModalSymbolicEncoder_forward (encoder self) image
         (boundary_view (boundary_width self) p) w0
       = (Ok (zf_b, zm_b, zi_b), mkWorld (heap w0) (calls w0 ++ trace_b)))
    /\ rows b (embed_dim c) zf_g /\ rows b (embed_dim c) zm_g
    /\ rows b (embed_dim c) zi_g /\ rows b (embed_dim c) zf_b
    /\ rows b (embed_dim c) zm_b /\ rows b (embed_dim c) zi_b
    /\ forall w,
       compute_embeddings self image p w
       = (Ok (if String.eqb (output self) "mask" then (zm_g, zm_b)
              else if String.eqb (output self) "image" then (zi_g, zi_b)
              else (zf_g, zf_b)),
          mkWorld (heap w)
            (calls w
             ++ map (band_call (boundary_width self)) (t_data p)
             ++ [CallEncoder image (global_view (boundary_width self) p)]
             ++ trace_g
             ++ [CallEncoder image (boundary_view (boundary_width self) p)]
             ++ trace_b)).
Proof.
  intros Hinit Hb Hwd Hh Hw Hdev Ri Rp Hband Hmask.
  assert (Hh1 : (1 <= h)%nat) by lia.
  pose proof (global_view_rect4 p _ b h wd Rp Hband) as Rg.
  pose proof (boundary_view_rect4 p _ b h wd Rp Hband) as Rb.
  destruct (MultiModalSymbolicEncoder_forward_ok mask_enc c th (encoder self)
              image (global_view (boundary_width self) p) b h wd
              Hinit Hwd Hh Hw Hdev Ri Rg (Hmask _ Rg))
    as [mk_g [zi_g [zf_g [_ [_ [_ [_ [Rzi_g [_ [Rzf_g Fg]]]]]]]]]].
  destruct (MultiModalSymbolicEncoder_forward_ok mask_enc c th (encoder self)
              image (boundary_view (boundary_width self) p) b h wd
              Hinit Hwd Hh Hw Hdev Ri Rb (Hmask _ Rb))
    as [mk_b [zi_b [zf_b [_ [_ [_ [_ [Rzi_b [_ [Rzf_b Fb]]]]]]]]]].
  exists zf_g, (mask_enc (global_view (boundary_width self) p)), zi_g.
  exists zf_b, (mask_enc (boundary_view (boundary_width self) p)), zi_b.
  eexists. eexists.
  split; [exact Fg|]. split; [exact Fb|].
  split; [exact Rzf_g|]. split; [exact (Hmask _ Rg)|]. split; [exact Rzi_g|].
  split; [exact Rzf_b|]. split; [exact (Hmask _ Rb)|]. split; [exact Rzi_b|].
  intros w. unfold compute_embeddings.
  unfold bind at 1.
  rewrite (boundary_from_prob_views p _ b h wd Hh1 Rp Hband w Hb).
  unfold bind at 1, lift.
  rewrite (cat_global_view p _ b h wd Hh1 Rp Hband).
  unfold bind at 1.
  rewrite (cat_boundary_view p).
  unfold bind at 1, call_encoder, bind at 1, log.
  rewrite Fg. cbn [heap calls].
  unfold bind at 1, bind at 1.
  rewrite Fb. cbn [heap calls].
  destruct (String.eqb (output self) "mask");
    [|destruct (String.eqb (output self) "image")];
    unfold ret; rewrite <- !app_assoc; reflexivity.
Qed.

(** C5, as the code has it: on a non-empty [(B,3,H,W)] image batch and
    [(B,1,H,W)] probability map on one device, H and W at least 4, with an
    encoder of image width at least 1 and collaborators that keep their
    shape contracts, [compute_embeddings] builds the global view
    [p, boundary] and the boundary-only view [boundary, boundary] sample by
    sample, runs the encoder forward pass once on each, the global view
    first, and returns from each pass the embedding named by [output]:
    fused, mask or image. *)
Theorem compute_embeddings_dual_view
  (mask_enc : SmallMaskEncoder) (c : MultiModalConfig) (th : InitParams)
  (self : MultiModalSymbolicAlignment) (image p : Tensor4) (w : world)
  (b h wd : nat) :
  MultiModalSymbolicEncoder_init mask_enc c th = Ok (encoder self) ->
  (1 <= b)%nat -> (1 <= image_width c)%nat -> (4 <= h)%nat -> (4 <= wd)%nat ->
  t_device image = t_device p ->
  rect4 b 3 h wd (t_data image) ->
  rect4 b 1 h wd (t_data p) ->
  (forall m, rows h wd m -> rows h wd (boundary_band m (boundary_width self))) ->
  (forall x, rect4 b 2 h wd (t_data x) -> rows b (embed_dim c) (mask_enc x)) ->
  exists x_g x_b t_g t_b trace_g trace_b z w',
    t_data x_g
    = map (fun s => s ++ [boundary_band (harden (hd [] s)) (boundary_width self)])
        (t_data p)
    /\ t_data x_b
       = map (fun s => [boundary_band (harden (hd [] s)) (boundary_width self);
                        boundary_band (harden (hd [] s)) (boundary_width self)])
           (t_data p)
    /\ (forall w0,
          MultiModalSymbolicEncoder_forward (encoder self) image x_g w0
          = (Ok t_g, mkWorld (heap w0) (calls w0 ++ trace_g)))
    /\ (forall w0,
          MultiModalSymbolicEncoder_forward (encoder self) image x_b w0
          = (Ok t_b, mkWorld (heap w0) (calls w0 ++ trace_b)))
    /\ compute_embeddings self image p w = (Ok z, w')
    /\ selected (output self) t_g t_b z
    /\ rows b (embed_dim c) (fst z) /\ rows b (embed_dim c) (snd z)
    /\ heap w' = heap w
    /\ calls w'
       = calls w
         ++ map (fun s => CallBoundaryBand (harden (hd [] s))
                            (boundary_width self)) (t_data p)
         ++ [CallEncoder image x_g] ++ trace_g
         ++ [CallEncoder image x_b] ++ trace_b.
Proof.
  intros Hinit Hb Hwd Hh Hw Hdev Ri Rp Hband Hmask.
  destruct (compute_embeddings_ok mask_enc c th self image p b h wd
              Hinit Hb Hwd Hh Hw Hdev Ri Rp Hband Hmask)
    as [zf_g [zm_g [zi_g [zf_b [zm_b [zi_b [trace_g [trace_b
         [Fg [Fb [R1 [R2 [R3 [R4 [R5 [R6 Hce]]]]]]]]]]]]]]]].
  exists (global_view (boundary_width self) p),
         (boundary_view (boundary_width self) p),
         (zf_g, zm_g, zi_g), (zf_b, zm_b, zi_b), trace_g, trace_b.
  eexists. eexists.
  split; [reflexivity|]. split; [reflexivity|].
  split; [exact Fg|]. split; [exact Fb|].
  split; [apply Hce|].
  split.
  { unfold selected. simpl. repeat split; intros ->; reflexivity. }
  split; [|split; [|split; reflexivity]].
  - destruct (String.eqb (output self) "mask");
      [|destruct (String.eqb (output self) "image")]; assumption.
  - destruct (String.eqb (output self) "mask");
      [|destruct (String.eqb (output self) "image")]; assumption.
Qed.

Lemma bind_ext {A B} (m : M A) (k1 k2 : A -> M B) (w : world) :
  (forall a w', k1 a w' = k2 a w') -> bind m k1 w = bind m k2 w.
Proof.
  intros Hk. unfold bind. destruct (m w) as [[a|e] w']; [apply Hk|reflexivity].
Qed.

Lemma compute_embeddings_as_fused
  (self : MultiModalSymbolicAlignment) (image p : Tensor4) (w : world) :
  output self <> "mask"%string -> output self <> "image"%string ->
  compute_embeddings self image p w
  = compute_embeddings (with_fused self) image p w.
Proof.
  intros Hnm Hni.
  assert (Em : String.eqb (output self) "mask" = false)
    by (apply String.eqb_neq; exact Hnm).
  assert (Ei : String.eqb (output self) "image" = false)
    by (apply String.eqb_neq; exact Hni).
  unfold compute_embeddings. cbn [with_fused encoder boundary_width output].
  apply bind_ext. intros bnd w1.
  apply bind_ext. intros x_g w2.
  apply bind_ext. intros x_b w3.
  apply bind_ext. intros [[zf_g zm_g] zi_g] w4.
  apply bind_ext. intros [[zf_b zm_b] zi_b] w5.
  rewrite Em, Ei. reflexivity.
Qed.

(** C10: an [output] selector that is neither "mask" nor "image" makes
    [compute_embeddings] behave, on every input and in every world, as the
    selector "fused" does, so the selector itself raises nothing; on a
    well-shaped non-empty batch the call returns the fused embeddings of
    the two forward passes. *)
Theorem compute_embeddings_unrecognised_output_is_fused
  (self : MultiModalSymbolicAlignment) :
  output self <> "mask"%string -> output self <> "image"%string ->
  (forall image p w,
     compute_embeddings self image p w
     = compute_embeddings (with_fused self) image p w)
  /\ (forall (mask_enc : SmallMaskEncoder) (c : MultiModalConfig)
       (th : InitParams) (image p : Tensor4) (w : world) (b h wd : nat),
     MultiModalSymbolicEncoder_init mask_enc c th = Ok (encoder self) ->
     (1 <= b)%nat -> (1 <= image_width c)%nat ->
     (4 <= h)%nat -> (4 <= wd)%nat ->
     t_device image = t_device p ->
     rect4 b 3 h wd (t_data image) ->
     rect4 b 1 h wd (t_data p) ->
     (forall m, rows h wd m ->
                rows h wd (boundary_band m (boundary_width self))) ->
     (forall x, rect4 b 2 h wd (t_data x) ->
                rows b (embed_dim c) (mask_enc x)) ->
     exists zf_g zm_g zi_g zf_b zm_b zi_b trace_g trace_b w',
       (forall w0,
          MultiModalSymbolicEncoder_forward (encoder self) image
            (global_view (boundary_width self) p) w0
          = (Ok (zf_g, zm_g, zi_g), mkWorld (heap w0) (calls w0 ++ trace_g)))
       /\ (forall w0,
          MultiModalSymbolicEncoder_forward (encoder self) image
            (boundary_view (boundary_width self) p) w0
          = (Ok (zf_b, zm_b, zi_b), mkWorld (heap w0) (calls w0 ++ trace_b)))
       /\ compute_embeddings self image p w = (Ok (zf_g, zf_b), w')).
Proof.
  intros Hnm Hni. split.
  - intros image p w. apply compute_embeddings_as_fused; assumption.
  - intros mask_enc c th image p w b h wd
      Hinit Hb Hwd Hh Hw Hdev Ri Rp Hband Hmask.
    destruct (compute_embeddings_ok mask_enc c th self image p b h wd
                Hinit Hb Hwd Hh Hw Hdev Ri Rp Hband Hmask)
      as [zf_g [zm_g [zi_g [zf_b [zm_b [zi_b [trace_g [trace_b
           [Fg [Fb [_ [_ [_ [_ [_ [_ Hce]]]]]]]]]]]]]]]].
    exists zf_g, zm_g, zi_g, zf_b, zm_b, zi_b, trace_g, trace_b.
    eexists. split; [exact Fg|]. split; [exact Fb|].
    rewrite (Hce w).
    rewrite (proj2 (String.eqb_neq _ _) Hnm), (proj2 (String.eqb_neq _ _) Hni).
    reflexivity.
Qed.

(** *** Prior updates *)

Lemma bool_index_selects (z : mat) (m : list bool) :
  length m = length z ->
  exists rows, bool_index z m = Ok rows /\ selects m z rows.
Proof.
  intros Hlen. unfold bool_index.
  rewrite (proj2 (Nat.eqb_eq _ _) Hlen).
  eexists; split; [reflexivity|].
  revert z Hlen. induction m as [|b m IH]; intros [|x z] Hlen;
    simpl in *; try discriminate.
  - constructor.
  - destruct b; simpl; constructor; apply IH; lia.
Qed.

Lemma selects_valid (m : list bool) (z rows : mat) :
  selects m z rows ->
  forall r, In r rows ->
  exists i, nth_error z i = Some r /\ nth_error m i = Some true.
Proof.
  induction 1 as [|m x z rows _ IH|m x z rows _ IH]; intros r Hin.
  - destruct Hin.
  - destruct Hin as [->|Hin].
    + exists 0%nat. split; reflexivity.
    + destruct (IH r Hin) as [i [Hz Hm]]. exists (S i). split; assumption.
  - destruct (IH r Hin) as [i [Hz Hm]]. exists (S i). split; assumption.
Qed.

Lemma any_false_iff (m : list bool) :
  any m = false <-> Forall (fun b => b = false) m.
Proof.
  unfold any. induction m as [|b m IH]; simpl.
  - split; auto.
  - destruct b; simpl.
    + split; [discriminate|]. intros H. inversion H. discriminate.
    + rewrite IH. split; intros H; [constructor; auto|inversion H; auto].
Qed.

Lemma any_true_iff (m : list bool) : any m = true <-> In true m.
Proof.
  unfold any. rewrite existsb_exists. split.
  - intros [b [Hin Hb]]. subst. assumption.
  - intros Hin. exists true. split; auto.
Qed.

(** C7: with a validity mask of zero elements, or with no true entry,
    [update_priors] returns normally and leaves the world as it was: no
    EMA update is called and every EMA object keeps its state. *)
Theorem update_priors_degenerate_mask_noop
  (self : MultiModalSymbolicAlignment) (z_g z_b : mat) (mask : MaskTensor)
  (w : world) :
  numel mask = 0%nat \/ Forall (fun b => b = false) (to_bool mask) ->
  update_priors self z_g z_b mask w = (Ok tt, w).
Proof.
  intros Hdeg. unfold update_priors.
  destruct (Nat.eqb (numel mask) 0) eqn:Hn; [reflexivity|].
  destruct Hdeg as [H0|Hall].
  - rewrite H0 in Hn. discriminate.
  - apply any_false_iff in Hall. rewrite Hall. reflexivity.
Qed.

(** C8: with at least one valid sample, [update_priors] makes exactly two
    EMA calls: the object in [ema_global] is updated with the rows of [z_g]
    at the true mask entries, then the object in [ema_boundary] with the
    rows of [z_b] at the true mask entries.  No row with a false entry
    is passed on, and when the two fields hold different objects each
    object ends in the state its own update gives it; no other object
    changes. *)
Theorem update_priors_valid_rows_only
  (self : MultiModalSymbolicAlignment) (z_g z_b : mat) (mask : MaskTensor)
  (w : world) :
  In true (to_bool mask) ->
  length (to_bool mask) = length z_g ->
  length (to_bool mask) = length z_b ->
  exists rows_g rows_b w',
    update_priors self z_g z_b mask w = (Ok tt, w')
    /\ selects (to_bool mask) z_g rows_g
    /\ selects (to_bool mask) z_b rows_b
    /\ (forall r, In r rows_g -> exists i,
          nth_error z_g i = Some r /\ nth_error (to_bool mask) i = Some true)
    /\ (forall r, In r rows_b -> exists i,
          nth_error z_b i = Some r /\ nth_error (to_bool mask) i = Some true)
    /\ calls w' = calls w ++ [CallUpdate (ema_global self) rows_g;
                              CallUpdate (ema_boundary self) rows_b]
    /\ (ema_global self <> ema_boundary self ->
        heap w' (ema_global self)
          = EMAStats_update (heap w (ema_global self)) rows_g
        /\ heap w' (ema_boundary self)
          = EMAStats_update (heap w (ema_boundary self)) rows_b)
    /\ (forall r, r <> ema_global self -> r <> ema_boundary self ->
        heap w' r = heap w r).
Proof.
  intros Hany Hg Hb.
  destruct (bool_index_selects z_g (to_bool mask) Hg) as [rows_g [Eg Sg]].
  destruct (bool_index_selects z_b (to_bool mask) Hb) as [rows_b [Eb Sb]].
  assert (Hn : Nat.eqb (numel mask) 0 = false).
  { apply Nat.eqb_neq. intros H0.
    destruct mask as [l|l]; simpl in *;
      apply length_zero_iff_nil in H0; subst; destruct Hany. }
  exists rows_g, rows_b.
  eexists. split.
  { unfold update_priors. rewrite Hn.
    rewrite (proj2 (any_true_iff _) Hany).
    unfold bind, lift, call_update. rewrite Eg, Eb. simpl. reflexivity. }
  split; [exact Sg|]. split; [exact Sb|].
  split; [apply (selects_valid _ _ _ Sg)|].
  split; [apply (selects_valid _ _ _ Sb)|].
  simpl. split.
  { rewrite <- app_assoc. reflexivity. }
  split.
  - intros Hne. unfold set_ref. split.
    + destruct (Nat.eqb (ema_global self) (ema_boundary self)) eqn:E.
      * apply Nat.eqb_eq in E. contradiction.
      * rewrite Nat.eqb_refl. reflexivity.
    + rewrite Nat.eqb_refl.
      destruct (Nat.eqb (ema_boundary self) (ema_global self)) eqn:E.
      * apply Nat.eqb_eq in E. symmetry in E. contradiction.
      * reflexivity.
  - intros r Hrg Hrb. unfold set_ref.
    rewrite (proj2 (Nat.eqb_neq _ _) Hrb), (proj2 (Nat.eqb_neq _ _) Hrg).
    reflexivity.
Qed.

(** *** Configuration tags *)

(** C9: a configuration whose fusion tag is any string but "attn" builds
    the encoder with the linear [FusionMLP]; construction does not raise. *)
Theorem init_unrecognised_fusion_selects_mlp
  (mask_enc : SmallMaskEncoder) (c : MultiModalConfig) (th : InitParams) :
  fusion_tag c <> "attn"%string ->
  exists enc,
    MultiModalSymbolicEncoder_init mask_enc c th = Ok enc
    /\ fusion enc = UseFusionMLP (FusionMLP_init (embed_dim c) (init_mlp th)).
Proof.
  intros Htag. eexists. split; [reflexivity|]. simpl.
  destruct (String.eqb (fusion_tag c) "attn") eqn:E; [|reflexivity].
  apply String.eqb_eq in E. contradiction.
Qed.

End Proofs.

(** ** Runs on the concrete instances *)

Lemma demo_image_rect4 : rect4 1 3 4 4 (t_data demo_image).
Proof. split; [reflexivity|]. repeat constructor. Defined.

Lemma demo_p_rect4 : rect4 1 1 4 4 (t_data demo_p).
Proof. split; [reflexivity|]. repeat constructor. Defined.

Lemma demo_mask_pair_rect4 : rect4 1 2 4 4 (t_data demo_mask_pair).
Proof. split; [reflexivity|]. repeat constructor. Defined.

Lemma demo_mask_encoder_rows (b : nat) (x : Tensor4) :
  rect4 b 2 4 4 (t_data x) -> rows b 2 (demo_mask_encoder x).
Proof.
  intros [L _]. unfold demo_mask_encoder. split.
  - rewrite length_map. exact L.
  - apply Forall_map. apply Forall_forall. intros s _. reflexivity.
Defined.

Lemma unit_rows_1_1 : rows 1 1 [[1]].
Proof. split; [reflexivity|]. repeat constructor. Defined.

(** The three embedding functions run on small inputs of the documented
    shapes. *)
Lemma embeddings_unit_norm_above_eps_witness :
  rows 1 1 [[1]]
  /\ rect4 1 3 4 4 (t_data demo_image)
  /\ (exists y,
        SmallImageEncoder_forward
          (SmallImageEncoder_init 2 1 (init_image demo_params))
          (t_data demo_image) = Ok (F_normalize y)
        /\ rows 1 2 (F_normalize y)
        /\ Forall2 unit_or_small y (F_normalize y))
  /\ (exists y,
        FusionMLP_forward (FusionMLP_init 1 (init_mlp demo_params))
          [[1]] [[1]] = Ok (F_normalize y)
        /\ rows 1 1 (F_normalize y)
        /\ Forall2 unit_or_small y (F_normalize y))
  /\ (exists y,
        FusionAttention_forward
          (FusionAttention_init 1 (init_attn demo_params)) [[1]] [[1]]
        = Ok (F_normalize y)
        /\ rows 1 1 (F_normalize y)
        /\ Forall2 unit_or_small y (F_normalize y)).
Proof.
  destruct embeddings_unit_norm_above_eps as [Himg [Hmlp Hattn]].
  split; [exact unit_rows_1_1|]. split; [exact demo_image_rect4|].
  split; [|split].
  - destruct (Himg 2%nat 1%nat (init_image demo_params) (t_data demo_image)
                1%nat 4%nat 4%nat (le_n 1) (le_n 4) (le_n 4) demo_image_rect4)
      as [y [_ [Ef [Ry Hu]]]].
    exists y. repeat split; try assumption; apply Ry.
  - destruct (Hmlp 1%nat (init_mlp demo_params) [[1]] [[1]] 1%nat
                unit_rows_1_1 unit_rows_1_1)
      as [z [y [_ [_ [Ef [Ry Hu]]]]]].
    exists y. repeat split; try assumption; apply Ry.
  - destruct (Hattn 1%nat (init_attn demo_params) [[1]] [[1]] 1%nat
                unit_rows_1_1 unit_rows_1_1)
      as [w [fused [y [_ [_ [_ [Ef [Ry Hu]]]]]]]].
    exists y. repeat split; try assumption; apply Ry.
Defined.

(** C2 fails as stated.  A linear fusion whose hidden unit is dead on two
    unit-norm inputs, with a zero output bias, returns the zero row, whose
    norm is 0 and not 1 within 1e-5; and the image encoder returns nothing
    on an RGB image of 2 x 2 pixels: it raises RuntimeError. *)
Lemma unit_norm_fails_on_dead_relu :
  norm2 [1] = 1
  /\ FusionMLP_forward (FusionMLP_init 1 dead_mlp) [[1]] [[1]] = Ok [[0]]
  /\ norm2 [0] = 0
  /\ ~ (Rabs (norm2 [0] - 1) <= / 100000)
  /\ rect4 1 3 2 2 (t_data tiny_image)
  /\ SmallImageEncoder_forward
       (SmallImageEncoder_init 2 1 (init_image demo_params))
       (t_data tiny_image)
     = Raise RuntimeError.
Proof.
  assert (N1 : norm2 [1] = 1).
  { unfold norm2, sumsq. simpl.
    replace (1 * 1 + 0) with 1 by ring. apply sqrt_1. }
  assert (N0 : norm2 [0] = 0).
  { unfold norm2, sumsq. simpl.
    replace (0 * 0 + 0) with 0 by ring. apply sqrt_0. }
  split; [exact N1|]. split; [|split; [exact N0|split; [|split]]].
  - unfold FusionMLP_forward, FusionMLP_proj, FusionMLP_init, dead_mlp,
      cat_last, Linear_forward, Linear_row, relu2, relu, dot, Rsum.
    simpl.
    replace (Rmax (-1 * 1 + (-1 * 1 + 0) + 0) 0) with 0
      by (rewrite Rmax_right; [reflexivity|lra]).
    replace (1 * 0 + 0 + 0) with 0 by ring.
    unfold normalize_row. simpl.
    unfold Rdiv. rewrite Rmult_0_l. reflexivity.
  - rewrite N0. replace (0 - 1) with (-1) by ring.
    rewrite Rabs_left by lra. lra.
  - split; [reflexivity|]. repeat constructor.
  - reflexivity.
Qed.

Lemma two_unit_rows : rows 2 2 [[1; 0]; [0; 1]].
Proof. split; [reflexivity|]. repeat constructor. Defined.

Lemma two_other_rows : rows 2 2 [[0; 1]; [1; 0]].
Proof. split; [reflexivity|]. repeat constructor. Defined.

(** Two samples of dimension 2 through an attention fusion whose two logits
    differ. *)
Lemma FusionAttention_scalar_softmax_weights_witness :
  rows 2 2 [[1; 0]; [0; 1]] /\ rows 2 2 [[0; 1]; [1; 0]]
  /\ exists logits w fused y,
       FusionAttention_attn (FusionAttention_init 2 skew_attn)
         [[1; 0; 0; 1]; [0; 1; 1; 0]] = Ok logits
       /\ rows 2 2 logits
       /\ Forall2 softmax_pair logits w
       /\ FusionAttention_weights (FusionAttention_init 2 skew_attn)
            [[1; 0]; [0; 1]] [[0; 1]; [1; 0]] = Ok w
       /\ length w = 2%nat
       /\ Forall two_weights w
       /\ scaled_concat w [[1; 0]; [0; 1]] [[0; 1]; [1; 0]] fused
       /\ Linear_forward (attn_proj (FusionAttention_init 2 skew_attn)) fused
          = Ok y
       /\ FusionAttention_forward (FusionAttention_init 2 skew_attn)
            [[1; 0]; [0; 1]] [[0; 1]; [1; 0]]
          = Ok (F_normalize y).
Proof.
  split; [exact two_unit_rows|]. split; [exact two_other_rows|].
  exact (FusionAttention_scalar_softmax_weights 2 skew_attn
           [[1; 0]; [0; 1]] [[0; 1]; [1; 0]] 2 two_unit_rows two_other_rows).
Defined.

Lemma boundary_from_prob_per_sample_witness :
  t_data demo_p <> []
  /\ boundary_from_prob (ext := history_externals) demo_p 2 empty_world
     = (Ok (mkTensor4 CPU Float32 [[harden (const_plane 4 4 (3/4))]]),
        @mkWorld history_externals (fun _ => [])
          [CallBoundaryBand (harden (const_plane 4 4 (3/4))) 2]).
Proof.
  assert (Hne : t_data demo_p <> []) by discriminate.
  split; [exact Hne|].
  refine (proj1 (boundary_from_prob_per_sample (ext := history_externals)
                   demo_p 2 empty_world 4 4 Hne _ _)).
  - constructor; [|constructor].
    exists (const_plane 4 4 (3/4)), []. split; reflexivity.
  - intros m. reflexivity.
Defined.

Lemma demo_init :
  MultiModalSymbolicEncoder_init demo_mask_encoder demo_cfg demo_params
  = Ok demo_encoder.
Proof. reflexivity. Defined.

(** With the selector "fused": the pair returned holds the fused
    embeddings of the two passes. *)
Lemma compute_embeddings_dual_view_witness :
  rect4 1 3 4 4 (t_data demo_image)
  /\ rect4 1 1 4 4 (t_data demo_p)
  /\ exists x_g x_b t_g t_b z w',
       t_data x_g
       = [[const_plane 4 4 (3/4); harden (const_plane 4 4 (3/4))]]
       /\ t_data x_b
          = [[harden (const_plane 4 4 (3/4)); harden (const_plane 4 4 (3/4))]]
       /\ fst (MultiModalSymbolicEncoder_forward (ext := history_externals)
                 demo_encoder demo_image x_g empty_world) = Ok t_g
       /\ fst (MultiModalSymbolicEncoder_forward (ext := history_externals)
                 demo_encoder demo_image x_b empty_world) = Ok t_b
       /\ compute_embeddings (ext := history_externals) default_alignment
            demo_image demo_p empty_world = (Ok z, w')
       /\ z = (fst (fst t_g), fst (fst t_b))
       /\ rows 1 2 (fst z) /\ rows 1 2 (snd z)
       /\ heap w' = heap empty_world.
Proof.
  split; [exact demo_image_rect4|]. split; [exact demo_p_rect4|].
  destruct (compute_embeddings_dual_view (ext := history_externals)
              demo_mask_encoder demo_cfg demo_params default_alignment
              demo_image demo_p empty_world 1 4 4
              demo_init (le_n 1) (le_n 1) (le_n 4) (le_n 4) eq_refl
              demo_image_rect4 demo_p_rect4
              (fun m H => H) (demo_mask_encoder_rows 1))
    as [x_g [x_b [t_g [t_b [trace_g [trace_b [z [w'
         [Dg [Db [Fg [Fb [Hce [[Hsel _] [R1 [R2 [Hh Hc]]]]]]]]]]]]]]]]].
  exists x_g, x_b, t_g, t_b, z, w'.
  split; [exact Dg|]. split; [exact Db|].
  split; [exact (f_equal fst (Fg empty_world))|].
  split; [exact (f_equal fst (Fb empty_world))|].
  split; [exact Hce|]. split; [exact (Hsel eq_refl)|].
  split; [exact R1|]. split; [exact R2|]. exact Hh.
Defined.

(** C5 fails as stated: on an RGB image of 2 x 2 pixels with its
    probability map, and on a 4 x 4 image held on another device than its
    probability map, [compute_embeddings] returns no pair of embeddings but
    raises RuntimeError. *)
Lemma compute_embeddings_raises_on_small_or_remote_image :
  rect4 1 3 2 2 (t_data tiny_image)
  /\ rect4 1 1 2 2 (t_data tiny_p)
  /\ fst (compute_embeddings (ext := history_externals) default_alignment
            tiny_image tiny_p empty_world) = Raise RuntimeError
  /\ rect4 1 3 4 4 (t_data remote_image)
  /\ fst (compute_embeddings (ext := history_externals) default_alignment
            remote_image demo_p empty_world) = Raise RuntimeError.
Proof.
  split; [split; [reflexivity|repeat constructor]|].
  split; [split; [reflexivity|repeat constructor]|].
  split; [reflexivity|].
  split; [split; [reflexivity|repeat constructor]|].
  reflexivity.
Qed.

(** A mask whose channel 0 holds 2, -1 and 1/2: the pixels reach the image
    encoder as 1, 0 and 1/2 times the image entry. *)
Lemma encoder_masks_image_and_returns_three_witness :
  rect4 1 3 4 4 (t_data demo_image)
  /\ rect4 1 2 4 4 (t_data clamping_mask_pair)
  /\ exists masked z_img z_fused,
       rect4 1 3 4 4 (t_data masked)
       /\ at4 (t_data masked) 0 0 0 0 = Some 1
       /\ at4 (t_data masked) 0 1 1 0 = Some 0
       /\ at4 (t_data masked) 0 2 2 3 = Some (/ 2)
       /\ MultiModalSymbolicEncoder_forward (ext := history_externals)
            demo_encoder demo_image clamping_mask_pair empty_world
          = (Ok (z_fused, demo_mask_encoder clamping_mask_pair, z_img),
             @mkWorld history_externals (fun _ => [])
               [CallMaskEncoder clamping_mask_pair;
                CallImageEncoder masked;
                CallFusion (demo_mask_encoder clamping_mask_pair) z_img]).
Proof.
  assert (Rc : rect4 1 2 4 4 (t_data clamping_mask_pair))
    by (split; [reflexivity|repeat constructor]).
  split; [exact demo_image_rect4|]. split; [exact Rc|].
  destruct (encoder_masks_image_and_returns_three (ext := history_externals)
              demo_mask_encoder demo_cfg demo_params demo_encoder
              demo_image clamping_mask_pair empty_world 1 4 4
              demo_init (le_n 1) (le_n 4) (le_n 4) eq_refl
              demo_image_rect4 Rc
              (demo_mask_encoder_rows 1 clamping_mask_pair Rc))
    as [masked [z_img [z_fused [Rm [Hent [_ [_ Hf]]]]]]].
  exists masked, z_img, z_fused. split; [exact Rm|].
  split; [|split; [|split; [|exact Hf]]].
  - rewrite (Hent 0%nat 0%nat 0%nat 0%nat 1 2 eq_refl eq_refl). f_equal.
    rewrite Rmax_left by lra. rewrite Rmin_right by lra. ring.
  - rewrite (Hent 0%nat 1%nat 1%nat 0%nat 1 (-1) eq_refl eq_refl). f_equal.
    rewrite Rmax_right by lra. rewrite Rmin_left by lra. ring.
  - rewrite (Hent 0%nat 2%nat 2%nat 3%nat 1 (1/2) eq_refl eq_refl). f_equal.
    rewrite Rmax_left by lra. rewrite Rmin_left by lra. lra.
Defined.

(** C6 fails as stated: on an RGB image of 2 x 2 pixels with its mask pair,
    and on a 4 x 4 image held on another device than its mask pair, the
    forward pass returns no embeddings but raises RuntimeError. *)
Lemma encoder_forward_raises_on_small_or_remote_image :
  rect4 1 3 2 2 (t_data tiny_image)
  /\ rect4 1 2 2 2 (t_data tiny_mask_pair)
  /\ fst (MultiModalSymbolicEncoder_forward (ext := history_externals)
            demo_encoder tiny_image tiny_mask_pair empty_world)
     = Raise RuntimeError
  /\ rect4 1 3 4 4 (t_data remote_image)
  /\ rect4 1 2 4 4 (t_data demo_mask_pair)
  /\ fst (MultiModalSymbolicEncoder_forward (ext := history_externals)
            demo_encoder remote_image demo_mask_pair empty_world)
     = Raise RuntimeError.
Proof.
  split; [split; [reflexivity|repeat constructor]|].
  split; [split; [reflexivity|repeat constructor]|].
  split; [reflexivity|].
  split; [split; [reflexivity|repeat constructor]|].
  split; [split; [reflexivity|repeat constructor]|].
  reflexivity.
Qed.

Lemma update_priors_degenerate_mask_noop_witness :
  Forall (fun b => b = false) (to_bool (NumMask [0; 0]))
  /\ update_priors (ext := history_externals) demo_alignment
       [[1; 0]; [0; 1]] [[0; 1]; [1; 0]] (NumMask [0; 0]) empty_world
     = (Ok tt, empty_world).
Proof.
  assert (H : Forall (fun b => b = false) (to_bool (NumMask [0; 0]))).
  { simpl. destruct (Req_dec_T 0 0) as [_|Hne]; [|exfalso; apply Hne; reflexivity].
    repeat constructor. }
  split; [exact H|].
  exact (update_priors_degenerate_mask_noop (ext := history_externals)
           demo_alignment [[1; 0]; [0; 1]] [[0; 1]; [1; 0]] (NumMask [0; 0])
           empty_world (or_intror H)).
Defined.

Lemma update_priors_valid_rows_only_witness :
  In true (to_bool (BoolMask [true; false]))
  /\ exists rows_g rows_b w',
       update_priors (ext := history_externals) demo_alignment
         [[1; 0]; [0; 1]] [[0; 1]; [1; 0]] (BoolMask [true; false]) empty_world
       = (Ok tt, w')
       /\ selects [true; false] [[1; 0]; [0; 1]] rows_g
       /\ selects [true; false] [[0; 1]; [1; 0]] rows_b
       /\ calls w' = [CallUpdate 0%nat rows_g; CallUpdate 1%nat rows_b]
       /\ heap w' 0%nat = [rows_g]
       /\ heap w' 1%nat = [rows_b].
Proof.
  assert (H : In true (to_bool (BoolMask [true; false])))
    by (left; reflexivity).
  split; [exact H|].
  destruct (update_priors_valid_rows_only (ext := history_externals)
              demo_alignment [[1; 0]; [0; 1]] [[0; 1]; [1; 0]]
              (BoolMask [true; false]) empty_world H eq_refl eq_refl)
    as [rows_g [rows_b [w' [Hu [Sg [Sb [_ [_ [Hc [Hh _]]]]]]]]]].
  exists rows_g, rows_b, w'.
  destruct (Hh (fun E : 0%nat = 1%nat => O_S 0 E)) as [Hg Hb].
  repeat split; assumption.
Defined.

Lemma init_unrecognised_fusion_selects_mlp_witness :
  fusion_tag demo_cfg <> "attn"%string
  /\ exists enc,
       MultiModalSymbolicEncoder_init demo_mask_encoder demo_cfg demo_params
       = Ok enc
       /\ fusion enc = UseFusionMLP (FusionMLP_init 2 (init_mlp demo_params)).
Proof.
  assert (H : fusion_tag demo_cfg <> "attn"%string) by discriminate.
  split; [exact H|].
  exact (init_unrecognised_fusion_selects_mlp demo_mask_encoder demo_cfg
           demo_params H).
Defined.

Lemma compute_embeddings_unrecognised_output_is_fused_witness :
  output demo_alignment <> "mask"%string
  /\ output demo_alignment <> "image"%string
  /\ exists zf_g zf_b w',
       compute_embeddings (ext := history_externals) demo_alignment
         demo_image demo_p empty_world = (Ok (zf_g, zf_b), w')
       /\ compute_embeddings (ext := history_externals)
            (with_fused demo_alignment) demo_image demo_p empty_world
          = (Ok (zf_g, zf_b), w').
Proof.
  assert (Hm : output demo_alignment <> "mask"%string) by discriminate.
  assert (Hi : output demo_alignment <> "image"%string) by discriminate.
  split; [exact Hm|]. split; [exact Hi|].
  destruct (compute_embeddings_unrecognised_output_is_fused
              (ext := history_externals) demo_alignment Hm Hi)
    as [Heq Hok].
  destruct (Hok demo_mask_encoder demo_cfg demo_params demo_image demo_p
              empty_world 1%nat 4%nat 4%nat
              demo_init (le_n 1) (le_n 1) (le_n 4) (le_n 4) eq_refl
              demo_image_rect4 demo_p_rect4
              (fun m H => H) (demo_mask_encoder_rows 1))
    as [zf_g [zm_g [zi_g [zf_b [zm_b [zi_b [trace_g [trace_b [w'
         [_ [_ Hce]]]]]]]]]]].
  exists zf_g, zf_b, w'. split; [exact Hce|].
  rewrite <- Heq. exact Hce.
Defined.

(** ** Further properties of the code *)

Section Further.
Context {ext : Externals}.

(** *** What boundary extraction reads *)

Lemma harden_idempotent (pl : list (list R)) : harden (harden pl) = harden pl.
Proof.
  unfold harden. rewrite map_map. apply map_ext. intros r.
  rewrite map_map. apply map_ext. intros x.
  destruct (Rlt_dec (1/2) x) as [Hx|Hx].
  - destruct (Rlt_dec (1/2) 1) as [_|H1]; [reflexivity|exfalso; lra].
  - destruct (Rlt_dec (1/2) 0) as [H0|_]; [exfalso; lra|reflexivity].
Qed.

(** The loop sees a probability map only through the hardened channel 0 of
    each sample. *)
Lemma boundary_loop_ext (p1 p2 : Tensor4) (width : Z) (range : list nat) :
  (forall i, rbind (index2 p1 i 0) (fun pl => Ok (harden pl))
             = rbind (index2 p2 i 0) (fun pl => Ok (harden pl))) ->
  forall outs w,
    boundary_loop p1 width range outs w = boundary_loop p2 width range outs w.
Proof.
  intros Hidx. induction range as [|i rest IH]; intros outs w; simpl.
  - reflexivity.
  - unfold bind at 1 3, lift. specialize (Hidx i).
    destruct (index2 p1 i 0) as [pl1|e1]; destruct (index2 p2 i 0) as [pl2|e2];
      simpl in Hidx; try discriminate.
    + inversion Hidx as [Hh]. rewrite Hh.
      unfold bind, call_boundary_band, bind, log, ret. apply IH.
    + inversion Hidx. reflexivity.
Qed.

Lemma boundary_from_prob_ext (p1 p2 : Tensor4) (width : Z) (w : world) :
  t_device p1 = t_device p2 -> t_dtype p1 = t_dtype p2 ->
  length (t_data p1) = length (t_data p2) ->
  (forall i, rbind (index2 p1 i 0) (fun pl => Ok (harden pl))
             = rbind (index2 p2 i 0) (fun pl => Ok (harden pl))) ->
  boundary_from_prob p1 width w = boundary_from_prob p2 width w.
Proof.
  intros Hd Ht Hl Hidx. unfold boundary_from_prob, bind at 1 3.
  rewrite Hl, (boundary_loop_ext p1 p2 width _ Hidx), Hd, Ht. reflexivity.
Qed.

Lemma index2_first_channel (p : Tensor4) (i : nat) :
  index2 (first_channel p) i 0 = index2 p i 0.
Proof.
  unfold index2, first_channel, slice_dim1. simpl t_data.
  rewrite nth_error_map. destruct (nth_error (t_data p) i) as [s|]; simpl;
    [|reflexivity].
  destruct s as [|pl tl]; reflexivity.
Qed.

(** X1: [boundary_from_prob] reads channel 0 only: on every probability
    map, in every world, it behaves exactly as on [p[:, 0:1]], in its
    result, its error and its calls. *)
Theorem boundary_from_prob_reads_channel_0
  (p : Tensor4) (width : Z) (w : world) :
  boundary_from_prob (first_channel p) width w = boundary_from_prob p width w.
Proof.
  apply boundary_from_prob_ext; try reflexivity.
  - unfold first_channel, slice_dim1. simpl. apply length_map.
  - intros i. rewrite index2_first_channel. reflexivity.
Qed.

Lemma index2_hardened (p : Tensor4) (i : nat) :
  index2 (hardened p) i 0
  = rbind (index2 p i 0) (fun pl => Ok (harden pl)).
Proof.
  unfold index2, hardened. simpl t_data.
  rewrite nth_error_map. destruct (nth_error (t_data p) i) as [s|]; simpl;
    [|reflexivity].
  destruct s as [|pl tl]; reflexivity.
Qed.

(** X2: the bands depend on the probability map only through its
    thresholding at 0.5: replacing [p] by its hardened 0/1 version changes
    neither the result nor the calls of [boundary_from_prob]. *)
Theorem boundary_from_prob_of_hardened
  (p : Tensor4) (width : Z) (w : world) :
  boundary_from_prob (hardened p) width w = boundary_from_prob p width w.
Proof.
  apply boundary_from_prob_ext; try reflexivity.
  - unfold hardened. simpl. apply length_map.
  - intros i. rewrite index2_hardened.
    destruct (index2 p i 0) as [pl|e]; simpl; [|reflexivity].
    rewrite harden_idempotent. reflexivity.
Qed.

Lemma boundary_loop_fails (p : Tensor4) (width : Z) (r1 : list nat) :
  Forall (fun j => exists s, nth_error (t_data p) j = Some s /\ s <> []) r1 ->
  forall (i : nat) (r2 : list nat) (outs : list (list (list (list R))))
         (w : world),
  nth_error (t_data p) i = Some [] ->
  boundary_loop p width (r1 ++ i :: r2) outs w
  = (Raise IndexError,
     mkWorld (heap w)
       (calls w ++ map (fun j => band_call width (nth j (t_data p) [])) r1)).
Proof.
  induction 1 as [|j rest [s [Hs Hne]] _ IH]; intros i r2 outs w Hi; simpl.
  - unfold bind, lift, index2. rewrite Hi. simpl.
    rewrite app_nil_r. destruct w; reflexivity.
  - unfold bind at 1, lift, index2. rewrite Hs.
    destruct s as [|pl chans]; [contradiction|]. simpl.
    unfold bind at 1, call_boundary_band, bind, log, ret. simpl.
    rewrite (IH i r2 _ _ Hi). simpl.
    rewrite (nth_error_nth _ _ [] Hs).
    unfold band_call. simpl. rewrite <- !app_assoc. reflexivity.
Qed.

(** X3: when a sample has no channel 0, [boundary_from_prob] raises
    IndexError at that sample: the boundary-band primitive has been called
    on the samples before it, in order, and on none after; a map of shape
    (B,0,H,W) with B >= 1 raises before any call. *)
Theorem boundary_from_prob_missing_channel
  (p : Tensor4) (width : Z) (w : world)
  (pre post : list (list (list (list R)))) :
  t_data p = pre ++ [] :: post ->
  Forall (fun s => s <> []) pre ->
  boundary_from_prob p width w
  = (Raise IndexError,
     mkWorld (heap w) (calls w ++ map (band_call width) pre)).
Proof.
  intros Hp Hpre. unfold boundary_from_prob, bind at 1.
  rewrite Hp at 1. rewrite length_app. simpl length.
  rewrite seq_app. simpl seq.
  rewrite (boundary_loop_fails p width (seq 0 (length pre))).
  - simpl. do 3 f_equal.
    rewrite <- (map_nth_seq (band_call width) [] pre).
    apply map_ext_in. intros j Hj. apply in_seq in Hj.
    rewrite Hp, app_nth1 by lia. reflexivity.
  - apply Forall_forall. intros j Hj. apply in_seq in Hj.
    exists (nth j pre []). split.
    + rewrite Hp, nth_error_app1 by lia. apply nth_error_nth'. lia.
    + rewrite Forall_forall in Hpre. apply Hpre. apply nth_In. lia.
  - rewrite Hp, nth_error_app2 by lia. rewrite Nat.sub_diag. reflexivity.
Qed.

(** *** What the driver never does *)

Lemma quiet_ret {A} (a : A) : quiet (ret a).
Proof.
  intros w. split; [reflexivity|]. exists []. split; [|constructor].
  simpl. rewrite app_nil_r. reflexivity.
Qed.

Lemma quiet_lift {A} (r : result A) : quiet (lift r).
Proof.
  intros w. split; [reflexivity|]. exists []. split; [|constructor].
  simpl. rewrite app_nil_r. reflexivity.
Qed.

Lemma quiet_log (c : call) : not_update c -> quiet (log c).
Proof.
  intros Hc w. split; [reflexivity|]. exists [c]. split; [reflexivity|].
  constructor; [exact Hc|constructor].
Qed.

Lemma quiet_bind {A B} (m : M A) (k : A -> M B) :
  quiet m -> (forall a, quiet (k a)) -> quiet (bind m k).
Proof.
  intros Hm Hk w. unfold bind.
  destruct (Hm w) as [Hh [t [Hc Ht]]].
  destruct (m w) as [[a|e] w1]; simpl in Hh, Hc.
  - destruct (Hk a w1) as [Hh2 [t2 [Hc2 Ht2]]].
    split; [congruence|]. exists (t ++ t2). split.
    + rewrite Hc2, Hc, app_assoc. reflexivity.
    + apply Forall_app. split; assumption.
  - simpl. split; [exact Hh|]. exists t. split; assumption.
Qed.

Lemma quiet_boundary_loop (p : Tensor4) (width : Z) (range : list nat) :
  forall outs, quiet (boundary_loop p width range outs).
Proof.
  induction range as [|i rest IH]; intros outs; simpl.
  - apply quiet_ret.
  - apply quiet_bind; [apply quiet_lift|]. intros pi.
    apply quiet_bind; [|intros bi; apply IH].
    unfold call_boundary_band. apply quiet_bind.
    + apply quiet_log. exact I.
    + intros _. apply quiet_ret.
Qed.

Lemma quiet_boundary_from_prob (p : Tensor4) (width : Z) :
  quiet (boundary_from_prob p width).
Proof.
  unfold boundary_from_prob.
  apply quiet_bind; [apply quiet_boundary_loop|]. intros outs.
  apply quiet_bind; [apply quiet_lift|]. intros t. apply quiet_ret.
Qed.

Lemma quiet_encoder_forward (self : MultiModalSymbolicEncoder)
  (image mask_pair : Tensor4) :
  quiet (MultiModalSymbolicEncoder_forward self image mask_pair).
Proof.
  unfold MultiModalSymbolicEncoder_forward.
  apply quiet_bind; [apply quiet_log; exact I|]. intros _.
  apply quiet_bind; [apply quiet_lift|]. intros masked.
  apply quiet_bind; [apply quiet_log; exact I|]. intros _.
  apply quiet_bind; [apply quiet_lift|]. intros z_img.
  apply quiet_bind; [apply quiet_log; exact I|]. intros _.
  apply quiet_bind; [apply quiet_lift|]. intros z_fused.
  apply quiet_ret.
Qed.

Lemma quiet_compute_embeddings (self : MultiModalSymbolicAlignment)
  (image p : Tensor4) :
  quiet (compute_embeddings self image p).
Proof.
  unfold compute_embeddings, call_encoder.
  apply quiet_bind; [apply quiet_boundary_from_prob|]. intros bnd.
  apply quiet_bind; [apply quiet_lift|]. intros x_g.
  apply quiet_bind; [apply quiet_lift|]. intros x_b.
  apply quiet_bind.
  { apply quiet_bind; [apply quiet_log; exact I|]. intros _.
    apply quiet_encoder_forward. }
  intros [[zf_g zm_g] zi_g].
  apply quiet_bind.
  { apply quiet_bind; [apply quiet_log; exact I|]. intros _.
    apply quiet_encoder_forward. }
  intros [[zf_b zm_b] zi_b].
  destruct (String.eqb (output self) "mask");
    [|destruct (String.eqb (output self) "image")]; apply quiet_ret.
Qed.

(** X4: [compute_embeddings] never touches the priors: on every input,
    whether it returns or raises, the state of every EMA object is what it
    was, the calls made so far are kept, and no call it adds is an EMA
    update. *)
Theorem compute_embeddings_leaves_priors
  (self : MultiModalSymbolicAlignment) (image p : Tensor4) (w : world) :
  heap (snd (compute_embeddings self image p w)) = heap w
  /\ exists t,
       calls (snd (compute_embeddings self image p w)) = calls w ++ t
       /\ forall r rows, ~ In (CallUpdate r rows) t.
Proof.
  destruct (quiet_compute_embeddings self image p w) as [Hh [t [Hc Ht]]].
  split; [exact Hh|]. exists t. split; [exact Hc|].
  intros r rows Hin. rewrite Forall_forall in Ht.
  exact (Ht _ Hin).
Qed.

Lemma device_eqb_neq (a b : device) : a <> b -> device_eqb a b = false.
Proof.
  intros Hne. destruct a as [|i], b as [|j]; simpl; try reflexivity.
  - contradiction.
  - apply Nat.eqb_neq. intros E. apply Hne. subst. reflexivity.
Qed.

(** X5: [compute_embeddings] does not move [image] to the device of [p]:
    with a well-shaped non-empty probability map on another device it
    raises RuntimeError at the masking product of the first pass, after the
    band of every sample was computed and the mask encoder was called on
    the global view; the image encoder and the fusion are never called. *)
Theorem compute_embeddings_device_mismatch
  (self : MultiModalSymbolicAlignment) (image p : Tensor4) (w : world)
  (b h wd : nat) :
  t_device image <> t_device p ->
  (1 <= b)%nat -> (1 <= h)%nat ->
  rect4 b 1 h wd (t_data p) ->
  (forall m, rows h wd m -> rows h wd (boundary_band m (boundary_width self))) ->
  compute_embeddings self image p w
  = (Raise RuntimeError,
     mkWorld (heap w)
       (calls w
        ++ map (band_call (boundary_width self)) (t_data p)
        ++ [CallEncoder image (global_view (boundary_width self) p);
            CallMaskEncoder (global_view (boundary_width self) p)])).
Proof.
  intros Hdev Hb Hh Rp Hband. unfold compute_embeddings.
  unfold bind at 1.
  rewrite (boundary_from_prob_views p _ b h wd Hh Rp Hband w Hb).
  unfold bind at 1, lift.
  rewrite (cat_global_view p _ b h wd Hh Rp Hband).
  unfold bind at 1.
  rewrite (cat_boundary_view p).
  unfold bind at 1, call_encoder, bind at 1, log.
  unfold MultiModalSymbolicEncoder_forward.
  unfold bind at 1, log. unfold bind at 1, lift.
  unfold mul4t, mask_channel, global_view. simpl t_device.
  rewrite (device_eqb_neq _ _ Hdev). cbn [heap calls].
  rewrite <- !app_assoc. reflexivity.
Qed.

(** *** Prior updates: errors, aliasing and what is read *)

Lemma mask_with_true_not_empty (mask : MaskTensor) :
  In true (to_bool mask) -> Nat.eqb (numel mask) 0 = false.
Proof.
  intros Hany. apply Nat.eqb_neq. intros H0.
  destruct mask as [l|l]; simpl in *;
    apply length_zero_iff_nil in H0; subst; destruct Hany.
Qed.

(** X6: with a valid sample in the mask and a [z_g] whose batch size
    differs from the length of the mask, [update_priors] raises IndexError
    and has changed nothing: no EMA object, no call. *)
Theorem update_priors_z_g_mismatch
  (self : MultiModalSymbolicAlignment) (z_g z_b : mat) (mask : MaskTensor)
  (w : world) :
  In true (to_bool mask) ->
  length (to_bool mask) <> length z_g ->
  update_priors self z_g z_b mask w = (Raise IndexError, w).
Proof.
  intros Hany Hlen. unfold update_priors.
  rewrite (mask_with_true_not_empty mask Hany).
  rewrite (proj2 (any_true_iff _) Hany).
  unfold bind, lift, bool_index.
  rewrite (proj2 (Nat.eqb_neq _ _) Hlen). reflexivity.
Qed.

(** X7: [update_priors] is not atomic.  With a valid sample, a [z_g] that
    fits the mask and a [z_b] that does not, it raises IndexError after the
    object in [ema_global] was updated with the valid rows of [z_g]: that
    update stays, and the object in [ema_boundary] gets none. *)
Theorem update_priors_partial_on_z_b_mismatch
  (self : MultiModalSymbolicAlignment) (z_g z_b : mat) (mask : MaskTensor)
  (w : world) :
  In true (to_bool mask) ->
  length (to_bool mask) = length z_g ->
  length (to_bool mask) <> length z_b ->
  exists rows_g,
    selects (to_bool mask) z_g rows_g
    /\ update_priors self z_g z_b mask w
       = (Raise IndexError,
          mkWorld
            (set_ref (ema_global self)
               (EMAStats_update (heap w (ema_global self)) rows_g) (heap w))
            (calls w ++ [CallUpdate (ema_global self) rows_g])).
Proof.
  intros Hany Hg Hb.
  destruct (bool_index_selects z_g (to_bool mask) Hg) as [rows_g [Eg Sg]].
  exists rows_g. split; [exact Sg|].
  unfold update_priors.
  rewrite (mask_with_true_not_empty mask Hany).
  rewrite (proj2 (any_true_iff _) Hany).
  unfold bind, lift, call_update. rewrite Eg.
  unfold bool_index. rewrite (proj2 (Nat.eqb_neq _ _) Hb). reflexivity.
Qed.

(** X8: when the fields [ema_global] and [ema_boundary] hold one and the
    same object, a call with a valid sample updates that object twice,
    first with the valid rows of [z_g] and then with those of [z_b]. *)
Theorem update_priors_shared_object
  (self : MultiModalSymbolicAlignment) (z_g z_b : mat) (mask : MaskTensor)
  (w : world) :
  ema_global self = ema_boundary self ->
  In true (to_bool mask) ->
  length (to_bool mask) = length z_g ->
  length (to_bool mask) = length z_b ->
  exists rows_g rows_b w',
    update_priors self z_g z_b mask w = (Ok tt, w')
    /\ selects (to_bool mask) z_g rows_g
    /\ selects (to_bool mask) z_b rows_b
    /\ heap w' (ema_global self)
       = EMAStats_update
           (EMAStats_update (heap w (ema_global self)) rows_g) rows_b
    /\ (forall r, r <> ema_global self -> heap w' r = heap w r).
Proof.
  intros Halias Hany Hg Hb.
  destruct (bool_index_selects z_g (to_bool mask) Hg) as [rows_g [Eg Sg]].
  destruct (bool_index_selects z_b (to_bool mask) Hb) as [rows_b [Eb Sb]].
  exists rows_g, rows_b. eexists. split.
  { unfold update_priors.
    rewrite (mask_with_true_not_empty mask Hany).
    rewrite (proj2 (any_true_iff _) Hany).
    unfold bind, lift, call_update. rewrite Eg, Eb. simpl. reflexivity. }
  split; [exact Sg|]. split; [exact Sb|]. simpl. rewrite <- Halias. split.
  - unfold set_ref. rewrite !Nat.eqb_refl. reflexivity.
  - intros r Hr. unfold set_ref.
    rewrite (proj2 (Nat.eqb_neq _ _) Hr). reflexivity.
Qed.

Lemma agree_on_tail (b : bool) (m : list bool) (x x' : list R)
  (z z' : list (list R)) :
  agree_on (b :: m) (x :: z) (x' :: z') ->
  (b = true -> x = x') /\ agree_on m z z'.
Proof.
  intros H. split.
  - intros ->. specialize (H 0%nat eq_refl). simpl in H. congruence.
  - intros i Hi. exact (H (S i) Hi).
Qed.

Lemma bool_index_agree (m : list bool) (z z' : list (list R)) :
  length z = length z' -> agree_on m z z' ->
  bool_index z m = bool_index z' m.
Proof.
  intros Hlen Hag. unfold bool_index. rewrite <- Hlen.
  destruct (Nat.eqb (length m) (length z)) eqn:E; [|reflexivity].
  apply Nat.eqb_eq in E. f_equal.
  revert z z' Hlen Hag E.
  induction m as [|b m IH]; intros [|x z] [|x' z'] Hlen Hag E;
    simpl in *; try discriminate; [reflexivity|].
  destruct (agree_on_tail _ _ _ _ _ _ Hag) as [Hx Hrest].
  assert (IHm : map snd (filter fst (combine m z))
                = map snd (filter fst (combine m z'))) by (apply IH; auto).
  destruct b; simpl; [|exact IHm].
  rewrite (Hx eq_refl), IHm. reflexivity.
Qed.

(** X9: [update_priors] does not read a row whose mask entry is false:
    two runs whose embeddings have the same batch sizes and hold the same
    rows wherever the mask is true end alike, in outcome, EMA states and
    calls, whatever the other rows hold. *)
Theorem update_priors_ignores_invalid_rows
  (self : MultiModalSymbolicAlignment) (z_g z_g' z_b z_b' : mat)
  (mask : MaskTensor) (w : world) :
  length z_g = length z_g' -> length z_b = length z_b' ->
  agree_on (to_bool mask) z_g z_g' ->
  agree_on (to_bool mask) z_b z_b' ->
  update_priors self z_g z_b mask w = update_priors self z_g' z_b' mask w.
Proof.
  intros Lg Lb Ag Ab. unfold update_priors.
  rewrite (bool_index_agree _ _ _ Lg Ag), (bool_index_agree _ _ _ Lb Ab).
  reflexivity.
Qed.

Lemma bool_index_all_true (m : list bool) (z : list (list R)) :
  Forall (fun b => b = true) m -> length m = length z ->
  bool_index z m = Ok z.
Proof.
  intros Hall Hlen. unfold bool_index.
  rewrite (proj2 (Nat.eqb_eq _ _) Hlen). f_equal.
  revert z Hlen. induction Hall as [|b m Hb _ IH]; intros [|x z] Hlen;
    simpl in *; try discriminate; [reflexivity|].
  subst b. simpl. f_equal. apply IH. lia.
Qed.

(** X10: with a non-empty mask that is true (or non-zero) everywhere and
    embeddings of its length, [update_priors] hands the whole of [z_g] to
    the object in [ema_global] and then the whole of [z_b] to the object in
    [ema_boundary], rows in their order. *)
Theorem update_priors_all_valid
  (self : MultiModalSymbolicAlignment) (z_g z_b : mat) (mask : MaskTensor)
  (w : world) :
  numel mask <> 0%nat ->
  Forall (fun b => b = true) (to_bool mask) ->
  length (to_bool mask) = length z_g ->
  length (to_bool mask) = length z_b ->
  update_priors self z_g z_b mask w
  = (Ok tt,
     mkWorld
       (set_ref (ema_boundary self)
          (EMAStats_update
             (set_ref (ema_global self)
                (EMAStats_update (heap w (ema_global self)) z_g) (heap w)
                (ema_boundary self))
             z_b)
          (set_ref (ema_global self)
             (EMAStats_update (heap w (ema_global self)) z_g) (heap w)))
       (calls w ++ [CallUpdate (ema_global self) z_g;
                    CallUpdate (ema_boundary self) z_b])).
Proof.
  intros Hne Hall Hg Hb. unfold update_priors.
  rewrite (proj2 (Nat.eqb_neq _ _) Hne).
  assert (Hany : any (to_bool mask) = true).
  { apply any_true_iff.
    destruct mask as [l|l]; simpl in *.
    - destruct l as [|b l]; [contradiction|].
      inversion Hall; subst. left. reflexivity.
    - destruct l as [|x l]; [contradiction|]. simpl in *.
      inversion Hall as [|? ? Hx _]. rewrite Hx. left. reflexivity. }
  rewrite Hany. unfold bind, lift, call_update.
  rewrite (bool_index_all_true _ _ Hall Hg), (bool_index_all_true _ _ Hall Hb).
  simpl. rewrite <- app_assoc. reflexivity.
Qed.

(** *** What the encoders reject and accept *)

Lemma rmapM_raise {A B} (f : A -> result B) (e : exn) (l : list A) :
  l <> [] -> Forall (fun a => f a = Raise e) l -> rmapM f l = Raise e.
Proof.
  intros Hne HF. destruct l as [|a tl]; [contradiction|].
  inversion HF as [|? ? Ha _]; subst. simpl. rewrite Ha. reflexivity.
Qed.

Lemma MaxPool2d_sample_too_small (s : list (list (list R))) (c h w : nat) :
  shaped3 c h w s -> (h < 2 \/ w < 2)%nat ->
  MaxPool2d_sample 2 s = Raise RuntimeError.
Proof.
  intros Hs Hsmall. pose proof (f_equal snd Hs) as Hpl. simpl in Hpl.
  unfold MaxPool2d_sample. rewrite Hpl.
  destruct Hsmall as [Hh|Hw].
  - rewrite (Nat.div_small h 2 Hh). reflexivity.
  - rewrite (Nat.div_small w 2 Hw), orb_true_r. reflexivity.
Qed.

Lemma pool_layer_too_small (x : list (list (list (list R)))) (c h w : nat) :
  x <> [] -> Forall (shaped3 c h w) x -> (h < 2 \/ w < 2)%nat ->
  layer_forward (LMaxPool2d 2) x = Raise RuntimeError.
Proof.
  intros Hne HF Hsmall. simpl. apply rmapM_raise; [exact Hne|].
  eapply Forall_impl; [|exact HF].
  intros s Hs. apply (MaxPool2d_sample_too_small s c h w); assumption.
Qed.

Lemma same_length_not_nil {A B} (x : list A) (y : list B) :
  x <> [] -> length y = length x -> y <> [].
Proof.
  intros Hne Hl E. subst y. destruct x; [contradiction|discriminate].
Qed.

(** X11: the image encoder needs images of at least 4 x 4 pixels: on a
    non-empty batch of RGB images with fewer rows or fewer columns, one of
    its two pooling stages is left without output and the forward pass
    raises RuntimeError. *)
Theorem SmallImageEncoder_rejects_small_images
  (d width : nat) (th : ImageParams) (x : batch) (b h w : nat) :
  (1 <= width)%nat -> (1 <= b)%nat -> (1 <= h)%nat -> (1 <= w)%nat ->
  (h < 4 \/ w < 4)%nat ->
  rect4 b 3 h w x ->
  SmallImageEncoder_forward (SmallImageEncoder_init d width th) x
  = Raise RuntimeError.
Proof.
  intros Hwd Hb Hh Hw Hsmall [Lx Fx].
  assert (Hne : x <> []) by (intros E; subst x; simpl in Lx; lia).
  assert (F0 : Forall (shaped3 3 h w) x).
  { eapply Forall_impl; [|exact Fx]. intros s. apply rect3_shaped3; lia. }
  unfold SmallImageEncoder_forward.
  cbn [net SmallImageEncoder_init Sequential_forward].
  destruct (conv_layer_ok (mkConv2d 3 width 3 1 (k1 th) (b1 th)) x h w)
    as [x1 [E1 [F1 L1]]]; try reflexivity; try assumption.
  rewrite E1. cbn [rbind].
  destruct (relu_layer_ok x1 _ _ _ F1) as [x2 [E2 [F2 L2]]].
  rewrite E2. cbn [rbind].
  destruct (conv_layer_ok (mkConv2d width width 3 1 (k2 th) (b2 th)) x2 h w)
    as [x3 [E3 [F3 L3]]]; try reflexivity; try assumption.
  rewrite E3. cbn [rbind].
  destruct (relu_layer_ok x3 _ _ _ F3) as [x4 [E4 [F4 L4]]].
  rewrite E4. cbn [rbind].
  assert (N4 : x4 <> []).
  { apply (same_length_not_nil x); [exact Hne|]. cbn in *. lia. }
  destruct (Nat.lt_ge_cases h 2) as [Hh2|Hh2].
  { rewrite (pool_layer_too_small x4 _ h w N4 F4 (or_introl Hh2)).
    reflexivity. }
  destruct (Nat.lt_ge_cases w 2) as [Hw2|Hw2].
  { rewrite (pool_layer_too_small x4 _ h w N4 F4 (or_intror Hw2)).
    reflexivity. }
  destruct (pool_layer_ok x4 _ h w Hwd Hh2 Hw2 F4) as [x5 [E5 [F5 L5]]].
  rewrite E5. cbn [rbind].
  assert (H2 : (1 <= h / 2)%nat) by (apply Nat.div_le_lower_bound; lia).
  assert (W2 : (1 <= w / 2)%nat) by (apply Nat.div_le_lower_bound; lia).
  destruct (conv_layer_ok (mkConv2d width (width * 2) 3 1 (k3 th) (b3 th))
              x5 (h / 2) (w / 2))
    as [x6 [E6 [F6 L6]]]; try reflexivity; try assumption;
    try (cbn [out_channels in_channels]; lia).
  rewrite E6. cbn [rbind].
  destruct (relu_layer_ok x6 _ _ _ F6) as [x7 [E7 [F7 L7]]].
  rewrite E7. cbn [rbind].
  assert (N7 : x7 <> []).
  { apply (same_length_not_nil x4); [exact N4|]. cbn in *. lia. }
  rewrite (pool_layer_too_small x7 _ (h / 2) (w / 2) N7 F7).
  - reflexivity.
  - destruct Hsmall as [H4|W4]; [left|right];
      apply Nat.Div0.div_lt_upper_bound; lia.
Qed.

(** X12: the image encoder takes three channels: on a non-empty batch
    whose images have any other number of channels its first convolution
    raises RuntimeError. *)
Theorem SmallImageEncoder_rejects_channel_count
  (d width : nat) (th : ImageParams) (x : batch) (b c h w : nat) :
  (1 <= b)%nat -> c <> 3%nat ->
  rect4 b c h w x ->
  SmallImageEncoder_forward (SmallImageEncoder_init d width th) x
  = Raise RuntimeError.
Proof.
  intros Hb Hc [Lx Fx].
  assert (Hne : x <> []) by (intros E; subst x; simpl in Lx; lia).
  unfold SmallImageEncoder_forward.
  cbn [net SmallImageEncoder_init Sequential_forward layer_forward].
  rewrite (rmapM_raise _ RuntimeError x Hne); [reflexivity|].
  eapply Forall_impl; [|exact Fx].
  intros s [Ls _]. unfold Conv2d_sample. cbn [in_channels].
  rewrite Ls, (proj2 (Nat.eqb_neq _ _) Hc). reflexivity.
Qed.

Lemma cat_last_mismatch (a b : list (list R)) :
  length a <> length b -> cat_last a b = Raise RuntimeError.
Proof.
  unfold cat_last. revert b.
  induction a as [|ra ta IH]; intros [|rb tb] Hl; simpl in *;
    try reflexivity; try contradiction.
  rewrite IH by lia. reflexivity.
Qed.

(** X13: both fusion variants refuse branch embeddings of different batch
    sizes: the first concatenation raises RuntimeError. *)
Theorem Fusion_rejects_batch_mismatch
  (f : Fusion) (z_mask z_img : mat) :
  length z_mask <> length z_img ->
  Fusion_forward f z_mask z_img = Raise RuntimeError.
Proof.
  intros Hl. destruct f as [m|m]; simpl;
    unfold FusionAttention_forward, FusionMLP_forward;
    rewrite (cat_last_mismatch _ _ Hl); reflexivity.
Qed.

Lemma Linear_forward_width_mismatch (l : Linear) (z : list (list R))
  (b k : nat) :
  (1 <= b)%nat -> k <> in_features l -> rows b k z ->
  Linear_forward l z = Raise RuntimeError.
Proof.
  intros Hb Hk [Lz Fz]. unfold Linear_forward.
  apply rmapM_raise.
  - intros E. subst z. simpl in Lz. lia.
  - eapply Forall_impl; [|exact Fz].
    intros r Hr. unfold Linear_row.
    rewrite Hr, (proj2 (Nat.eqb_neq _ _) Hk). reflexivity.
Qed.

Lemma scaled_concat_widths (w z_mask z_img fused : list (list R))
  (b d1 d2 : nat) :
  scaled_concat w z_mask z_img fused ->
  rows b d1 z_mask -> rows b d2 z_img -> rows b (d1 + d2) fused.
Proof.
  unfold rows. intros Hs. revert b.
  induction Hs as [|w0 w1 zm zi ws zms zis fs _ IH]; intros b [Lm Fm] [Li Fi].
  - simpl in *. split; auto.
  - inversion Fm; inversion Fi; subst. simpl.
    destruct (IH (length zms)) as [Lf Ff];
      [split; auto|split; auto; simpl in *; lia|].
    split; [lia|]. constructor; [|exact Ff].
    rewrite length_app, !length_map. lia.
Qed.

(** X14: the fusion modules check the width of the concatenation, not of
    each branch: branch embeddings of one batch size whose widths add up to
    2D are fused into a [(batch,D)] matrix by either variant, even when the
    two widths differ. *)
Theorem Fusion_accepts_widths_summing_to_2D
  (d : nat) (th : MLPParams) (th' : AttnParams) (z_mask z_img : mat)
  (b d1 d2 : nat) :
  (d1 + d2 = d * 2)%nat ->
  rows b d1 z_mask -> rows b d2 z_img ->
  (exists out,
     FusionMLP_forward (FusionMLP_init d th) z_mask z_img = Ok out
     /\ rows b d out)
  /\ (exists out,
     FusionAttention_forward (FusionAttention_init d th') z_mask z_img = Ok out
     /\ rows b d out).
Proof.
  intros Hsum Hm Hi.
  destruct (cat_last_ok _ _ _ _ _ Hm Hi) as [z [Ez [Rz _]]].
  rewrite Hsum in Rz. split.
  - destruct (Linear_forward_ok (mlp_proj1 (FusionMLP_init d th)) z b Rz)
      as [hid [Eh Rh]].
    apply relu2_rows in Rh.
    destruct (Linear_forward_ok (mlp_proj2 (FusionMLP_init d th)) _ b Rh)
      as [y [Ey Ry]].
    exists (F_normalize y). unfold FusionMLP_forward, FusionMLP_proj.
    rewrite Ez. cbn [rbind]. rewrite Eh. cbn [rbind]. rewrite Ey.
    cbn [rbind]. split; [reflexivity|].
    apply F_normalize_rows. exact Ry.
  - destruct (Linear_forward_ok (attn1 (FusionAttention_init d th')) z b Rz)
      as [hid [Eh Rh]].
    apply relu2_rows in Rh.
    destruct (Linear_forward_ok (attn2 (FusionAttention_init d th')) _ b Rh)
      as [logits [El Rl]].
    destruct (softmax_rows_two logits b Rl) as [Lw Fw].
    destruct (attention_scaling (softmax logits) z_mask z_img Fw)
      as [zm [zi [fused [Em [Ei [Ef Hs]]]]]];
      [destruct Hm; lia|destruct Hi; lia|].
    pose proof (scaled_concat_widths _ _ _ _ b d1 d2 Hs Hm Hi) as Rf.
    rewrite Hsum in Rf.
    destruct (Linear_forward_ok (attn_proj (FusionAttention_init d th'))
                fused b Rf) as [y [Ey Ry]].
    exists (F_normalize y).
    unfold FusionAttention_forward, FusionAttention_attn.
    rewrite Ez. cbn [rbind]. rewrite Eh. cbn [rbind]. rewrite El.
    cbn [rbind]. cbv zeta. rewrite Em. cbn [rbind]. rewrite Ei.
    cbn [rbind]. rewrite Ef. cbn [rbind]. rewrite Ey. cbn [rbind].
    split; [reflexivity|]. apply F_normalize_rows. exact Ry.
Qed.

(** X15: on a non-empty batch, branch embeddings whose widths do not add
    up to 2D make either fusion variant raise RuntimeError at its first
    linear layer. *)
Theorem Fusion_rejects_other_widths
  (d : nat) (th : MLPParams) (th' : AttnParams) (z_mask z_img : mat)
  (b d1 d2 : nat) :
  (1 <= b)%nat -> (d1 + d2 <> d * 2)%nat ->
  rows b d1 z_mask -> rows b d2 z_img ->
  FusionMLP_forward (FusionMLP_init d th) z_mask z_img = Raise RuntimeError
  /\ FusionAttention_forward (FusionAttention_init d th') z_mask z_img
     = Raise RuntimeError.
Proof.
  intros Hb Hsum Hm Hi.
  destruct (cat_last_ok _ _ _ _ _ Hm Hi) as [z [Ez [Rz _]]]. split.
  - unfold FusionMLP_forward, FusionMLP_proj. rewrite Ez. cbn [rbind].
    rewrite (Linear_forward_width_mismatch
               (mlp_proj1 (FusionMLP_init d th)) z b (d1 + d2) Hb Hsum Rz).
    reflexivity.
  - unfold FusionAttention_forward, FusionAttention_attn.
    rewrite Ez. cbn [rbind].
    rewrite (Linear_forward_width_mismatch
               (attn1 (FusionAttention_init d th')) z b (d1 + d2) Hb Hsum Rz).
    reflexivity.
Qed.

Lemma normalize_row_le_1 (v : list R) : norm2 (normalize_row v) <= 1.
Proof.
  rewrite normalize_row_norm.
  pose proof eps_pos as He. pose proof (norm2_nonneg v) as Hn.
  pose proof (Rmax_l (norm2 v) eps) as Hl.
  pose proof (Rmax_r (norm2 v) eps) as Hr.
  apply Rmult_le_reg_r with (Rmax (norm2 v) eps); [lra|].
  unfold Rdiv. rewrite Rmult_assoc, Rinv_l by lra. lra.
Qed.

Lemma F_normalize_le_1 (y : list (list R)) :
  Forall (fun r => norm2 r <= 1) (F_normalize y).
Proof.
  unfold F_normalize. apply Forall_map. apply Forall_forall.
  intros r _. apply normalize_row_le_1.
Qed.

(** X16: no embedding is longer than 1: whatever the parameters and the
    input, when the image encoder, the linear fusion or the attention
    fusion returns, every row of its result has L2 norm at most 1. *)
Theorem embedding_norm_at_most_1
  (m : SmallImageEncoder) (f : Fusion) (x : batch) (z_mask z_img out : mat) :
  SmallImageEncoder_forward m x = Ok out
  \/ Fusion_forward f z_mask z_img = Ok out ->
  Forall (fun r => norm2 r <= 1) out.
Proof.
  intros [H|H].
  - unfold SmallImageEncoder_forward in H.
    destruct (Sequential_forward (net m) x) as [z|]; [|discriminate].
    cbn [rbind] in H.
    destruct (Linear_forward (head m) (map avgpool_flatten z)) as [y|];
      [|discriminate].
    inversion H. apply F_normalize_le_1.
  - destruct f as [a|a]; simpl in H.
    + unfold FusionAttention_forward in H.
      destruct (cat_last z_mask z_img) as [c|]; [|discriminate].
      cbn [rbind] in H.
      destruct (FusionAttention_attn a c) as [l|]; [|discriminate].
      cbn [rbind] in H. cbv zeta in H.
      destruct (mul2 (slice_dim1 0 1 (softmax l)) z_mask) as [zm|];
        [|discriminate].
      cbn [rbind] in H.
      destruct (mul2 (slice_dim1 1 2 (softmax l)) z_img) as [zi|];
        [|discriminate].
      cbn [rbind] in H.
      destruct (cat_last zm zi) as [fu|]; [|discriminate].
      cbn [rbind] in H.
      destruct (Linear_forward (attn_proj a) fu) as [y|]; [|discriminate].
      inversion H. apply F_normalize_le_1.
    + unfold FusionMLP_forward in H.
      destruct (cat_last z_mask z_img) as [c|]; [|discriminate].
      cbn [rbind] in H.
      destruct (FusionMLP_proj a c) as [y|]; [|discriminate].
      inversion H. apply F_normalize_le_1.
Qed.

(** *** What the image branch sees *)

Lemma clamp_low (u : R) : u <= 0 -> clamp 0 1 u = 0.
Proof.
  intros Hu. unfold clamp. rewrite Rmax_right by exact Hu.
  apply Rmin_left. lra.
Qed.

Lemma clamp_high (u : R) : 1 <= u -> clamp 0 1 u = 1.
Proof.
  intros Hu. unfold clamp. rewrite Rmax_left by lra.
  apply Rmin_right. exact Hu.
Qed.

Lemma clamp_inside (u : R) : 0 <= u <= 1 -> clamp 0 1 u = u.
Proof.
  intros [H0 H1]. unfold clamp. rewrite Rmax_left by exact H0.
  apply Rmin_left. exact H1.
Qed.

(** X17: the mask saturates.  In a forward pass on well-shaped inputs, a
    pixel whose channel-0 mask value is at most 0 reaches the image encoder
    as 0 in every colour channel, a pixel whose mask value is at least 1
    reaches it unchanged, and a pixel with a mask value in [0,1] is
    multiplied by that value. *)
Theorem encoder_mask_saturates
  (mask_enc : SmallMaskEncoder) (c : MultiModalConfig) (th : InitParams)
  (self : MultiModalSymbolicEncoder) (image mask_pair : Tensor4) (w : world)
  (b h wd : nat) :
  MultiModalSymbolicEncoder_init mask_enc c th = Ok self ->
  (1 <= image_width c)%nat -> (4 <= h)%nat -> (4 <= wd)%nat ->
  t_device image = t_device mask_pair ->
  rect4 b 3 h wd (t_data image) ->
  rect4 b 2 h wd (t_data mask_pair) ->
  rows b (embed_dim c) (mask_enc mask_pair) ->
  exists masked z_img z_fused,
    MultiModalSymbolicEncoder_forward self image mask_pair w
    = (Ok (z_fused, mask_enc mask_pair, z_img),
       mkWorld (heap w)
         (calls w ++ [CallMaskEncoder mask_pair;
                      CallImageEncoder masked;
                      CallFusion (mask_enc mask_pair) z_img]))
    /\ forall n ch i j v u,
         at4 (t_data image) n ch i j = Some v ->
         at4 (t_data mask_pair) n 0 i j = Some u ->
         (u <= 0 -> at4 (t_data masked) n ch i j = Some 0)
         /\ (1 <= u -> at4 (t_data masked) n ch i j = Some v)
         /\ (0 <= u <= 1 -> at4 (t_data masked) n ch i j = Some (v * u)).
Proof.
  intros Hinit Hwd Hh Hw Hdev Ri Rm Rz.
  destruct (MultiModalSymbolicEncoder_forward_ok mask_enc c th self image
              mask_pair b h wd Hinit Hwd Hh Hw Hdev Ri Rm Rz)
    as [masked [z_img [z_fused [_ [Ed [_ [_ [_ [_ [_ Efw]]]]]]]]]].
  exists masked, z_img, z_fused. split; [apply Efw|].
  intros n ch i j v u Hv Hu.
  pose proof (masked_by_entry _ _ n ch i j v u Hv Hu) as He.
  rewrite <- Ed in He. repeat split; intros Hc; rewrite He; f_equal.
  - rewrite (clamp_low u Hc). ring.
  - rewrite (clamp_high u Hc). ring.
  - rewrite (clamp_inside u Hc). reflexivity.
Qed.

Lemma at4_global_view (p : Tensor4) (width : Z) (b h wd n i j : nat) :
  rect4 b 1 h wd (t_data p) ->
  at4 (t_data (global_view width p)) n 0 i j = at4 (t_data p) n 0 i j.
Proof.
  intros [_ F]. unfold at4, global_view. simpl t_data.
  rewrite nth_error_map.
  destruct (nth_error (t_data p) n) as [s|] eqn:E; simpl; [|reflexivity].
  apply nth_error_In in E. rewrite Forall_forall in F.
  destruct (F s E) as [Ls _].
  destruct s as [|pl tl]; [discriminate|]. reflexivity.
Qed.

Lemma at4_boundary_view (p : Tensor4) (width : Z) (n i j : nat) :
  at4 (t_data (boundary_view width p)) n 0 i j
  = at4 (map (band_of width) (t_data p)) n 0 i j.
Proof.
  unfold at4, boundary_view. simpl t_data. rewrite !nth_error_map.
  destruct (nth_error (t_data p) n); reflexivity.
Qed.

Lemma compute_embeddings_trace
  (mask_enc : SmallMaskEncoder) (c : MultiModalConfig) (th : InitParams)
  (self : MultiModalSymbolicAlignment) (image p : Tensor4) (b h wd : nat) :
  MultiModalSymbolicEncoder_init mask_enc c th = Ok (encoder self) ->
  (1 <= b)%nat -> (1 <= image_width c)%nat -> (4 <= h)%nat -> (4 <= wd)%nat ->
  t_device image = t_device p ->
  rect4 b 3 h wd (t_data image) ->
  rect4 b 1 h wd (t_data p) ->
  (forall m, rows h wd m -> rows h wd (boundary_band m (boundary_width self))) ->
  (forall x, rect4 b 2 h wd (t_data x) -> rows b (embed_dim c) (mask_enc x)) ->
  let x_g := global_view (boundary_width self) p in
  let x_b := boundary_view (boundary_width self) p in
  exists mg mb zi_g zi_b zf_g zf_b,
    t_data mg
    = masked_by (t_data image) (clamp4 0 1 (slice_dim1 0 1 (t_data x_g)))
    /\ t_data mb
       = masked_by (t_data image) (clamp4 0 1 (slice_dim1 0 1 (t_data x_b)))
    /\ SmallImageEncoder_forward (image_encoder (encoder self)) (t_data mg)
       = Ok zi_g
    /\ SmallImageEncoder_forward (image_encoder (encoder self)) (t_data mb)
       = Ok zi_b
    /\ Fusion_forward (fusion (encoder self)) (mask_enc x_g) zi_g = Ok zf_g
    /\ Fusion_forward (fusion (encoder self)) (mask_enc x_b) zi_b = Ok zf_b
    /\ forall w,
       compute_embeddings self image p w
       = (Ok (if String.eqb (output self) "mask"
              then (mask_enc x_g, mask_enc x_b)
              else if String.eqb (output self) "image" then (zi_g, zi_b)
              else (zf_g, zf_b)),
          mkWorld (heap w)
            (calls w
             ++ map (band_call (boundary_width self)) (t_data p)
             ++ [CallEncoder image x_g; CallMaskEncoder x_g;
                 CallImageEncoder mg; CallFusion (mask_enc x_g) zi_g;
                 CallEncoder image x_b; CallMaskEncoder x_b;
                 CallImageEncoder mb; CallFusion (mask_enc x_b) zi_b])).
Proof.
  intros Hinit Hb Hwd Hh Hw Hdev Ri Rp Hband Hmask x_g x_b.
  assert (Hh1 : (1 <= h)%nat) by lia.
  pose proof (global_view_rect4 p _ b h wd Rp Hband) as Rg.
  pose proof (boundary_view_rect4 p _ b h wd Rp Hband) as Rb.
  destruct (MultiModalSymbolicEncoder_forward_ok mask_enc c th (encoder self)
              image x_g b h wd Hinit Hwd Hh Hw Hdev Ri Rg (Hmask _ Rg))
    as [mg [zi_g [zf_g [_ [Dg [_ [Ig [_ [Fug [_ Fg]]]]]]]]]].
  destruct (MultiModalSymbolicEncoder_forward_ok mask_enc c th (encoder self)
              image x_b b h wd Hinit Hwd Hh Hw Hdev Ri Rb (Hmask _ Rb))
    as [mb [zi_b [zf_b [_ [Db [_ [Ib [_ [Fub [_ Fb]]]]]]]]]].
  exists mg, mb, zi_g, zi_b, zf_g, zf_b.
  split; [exact Dg|]. split; [exact Db|]. split; [exact Ig|].
  split; [exact Ib|]. split; [exact Fug|]. split; [exact Fub|].
  intros w. unfold compute_embeddings.
  unfold bind at 1.
  rewrite (boundary_from_prob_views p _ b h wd Hh1 Rp Hband w Hb).
  unfold bind at 1, lift.
  rewrite (cat_global_view p _ b h wd Hh1 Rp Hband).
  unfold bind at 1.
  rewrite (cat_boundary_view p).
  unfold bind at 1, call_encoder, bind at 1, log.
  fold x_g. fold x_b.
  rewrite Fg. cbn [heap calls].
  unfold bind at 1, bind at 1.
  rewrite Fb. cbn [heap calls].
  destruct (String.eqb (output self) "mask");
    [|destruct (String.eqb (output self) "image")];
    unfold ret; rewrite <- !app_assoc; reflexivity.
Qed.

(** X18: on a well-shaped non-empty batch, [compute_embeddings] calls the
    boundary-band primitive once per sample and then runs two passes, each
    calling the mask encoder, the image encoder and the fusion in this
    order.  In the global pass the image encoder sees every pixel times the
    clamped probability [p]; in the boundary pass it sees every pixel times
    the clamped band. *)
Theorem compute_embeddings_call_order
  (mask_enc : SmallMaskEncoder) (c : MultiModalConfig) (th : InitParams)
  (self : MultiModalSymbolicAlignment) (image p : Tensor4) (w : world)
  (b h wd : nat) :
  MultiModalSymbolicEncoder_init mask_enc c th = Ok (encoder self) ->
  (1 <= b)%nat -> (1 <= image_width c)%nat -> (4 <= h)%nat -> (4 <= wd)%nat ->
  t_device image = t_device p ->
  rect4 b 3 h wd (t_data image) ->
  rect4 b 1 h wd (t_data p) ->
  (forall m, rows h wd m -> rows h wd (boundary_band m (boundary_width self))) ->
  (forall x, rect4 b 2 h wd (t_data x) -> rows b (embed_dim c) (mask_enc x)) ->
  exists mg mb zi_g zi_b z w',
    compute_embeddings self image p w = (Ok z, w')
    /\ calls w'
       = calls w
         ++ map (band_call (boundary_width self)) (t_data p)
         ++ [CallEncoder image (global_view (boundary_width self) p);
             CallMaskEncoder (global_view (boundary_width self) p);
             CallImageEncoder mg;
             CallFusion (mask_enc (global_view (boundary_width self) p)) zi_g;
             CallEncoder image (boundary_view (boundary_width self) p);
             CallMaskEncoder (boundary_view (boundary_width self) p);
             CallImageEncoder mb;
             CallFusion (mask_enc (boundary_view (boundary_width self) p))
               zi_b]
    /\ (forall n ch i j v u,
          at4 (t_data image) n ch i j = Some v ->
          at4 (t_data p) n 0 i j = Some u ->
          at4 (t_data mg) n ch i j = Some (v * clamp 0 1 u))
    /\ (forall n ch i j v u,
          at4 (t_data image) n ch i j = Some v ->
          at4 (map (band_of (boundary_width self)) (t_data p)) n 0 i j
          = Some u ->
          at4 (t_data mb) n ch i j = Some (v * clamp 0 1 u)).
Proof.
  intros Hinit Hb Hwd Hh Hw Hdev Ri Rp Hband Hmask.
  destruct (compute_embeddings_trace mask_enc c th self image p b h wd
              Hinit Hb Hwd Hh Hw Hdev Ri Rp Hband Hmask)
    as [mg [mb [zi_g [zi_b [zf_g [zf_b [Dg [Db [_ [_ [_ [_ Hce]]]]]]]]]]]].
  exists mg, mb, zi_g, zi_b. eexists. eexists.
  split; [apply Hce|]. split; [reflexivity|]. split.
  - intros n ch i j v u Hv Hu. rewrite Dg. apply masked_by_entry; [exact Hv|].
    rewrite (at4_global_view p _ b h wd n i j Rp). exact Hu.
  - intros n ch i j v u Hv Hu. rewrite Db. apply masked_by_entry; [exact Hv|].
    rewrite at4_boundary_view. exact Hu.
Qed.

(** X19: with the selector "mask", [compute_embeddings] returns what the
    frozen mask encoder gives on the global view and on the boundary-only
    view; the image encoder and the fusion run all the same, and their
    results are dropped. *)
Theorem compute_embeddings_mask_selector
  (mask_enc : SmallMaskEncoder) (c : MultiModalConfig) (th : InitParams)
  (self : MultiModalSymbolicAlignment) (image p : Tensor4) (w : world)
  (b h wd : nat) :
  output self = "mask"%string ->
  MultiModalSymbolicEncoder_init mask_enc c th = Ok (encoder self) ->
  (1 <= b)%nat -> (1 <= image_width c)%nat -> (4 <= h)%nat -> (4 <= wd)%nat ->
  t_device image = t_device p ->
  rect4 b 3 h wd (t_data image) ->
  rect4 b 1 h wd (t_data p) ->
  (forall m, rows h wd m -> rows h wd (boundary_band m (boundary_width self))) ->
  (forall x, rect4 b 2 h wd (t_data x) -> rows b (embed_dim c) (mask_enc x)) ->
  exists mg mb zi_g zi_b w',
    compute_embeddings self image p w
    = (Ok (mask_enc (global_view (boundary_width self) p),
           mask_enc (boundary_view (boundary_width self) p)), w')
    /\ calls w'
       = calls w
         ++ map (band_call (boundary_width self)) (t_data p)
         ++ [CallEncoder image (global_view (boundary_width self) p);
             CallMaskEncoder (global_view (boundary_width self) p);
             CallImageEncoder mg;
             CallFusion (mask_enc (global_view (boundary_width self) p)) zi_g;
             CallEncoder image (boundary_view (boundary_width self) p);
             CallMaskEncoder (boundary_view (boundary_width self) p);
             CallImageEncoder mb;
             CallFusion (mask_enc (boundary_view (boundary_width self) p))
               zi_b].
Proof.
  intros Hout Hinit Hb Hwd Hh Hw Hdev Ri Rp Hband Hmask.
  destruct (compute_embeddings_trace mask_enc c th self image p b h wd
              Hinit Hb Hwd Hh Hw Hdev Ri Rp Hband Hmask)
    as [mg [mb [zi_g [zi_b [zf_g [zf_b [_ [_ [_ [_ [_ [_ Hce]]]]]]]]]]]].
  specialize (Hce w). rewrite Hout in Hce. simpl String.eqb in Hce.
  exists mg, mb, zi_g, zi_b. eexists. split; [exact Hce|]. reflexivity.
Qed.

(** *** The image encoder, sample by sample *)

(** X20: the convolutional stack divides the resolution by 4: on a batch
    of RGB images of H x W pixels, H and W at least 4, it returns for every
    image a feature map of 2 * width channels whose first plane has
    (H / 2) / 2 rows of (W / 2) / 2 entries, integer divisions. *)
Theorem SmallImageEncoder_net_resolution
  (d width : nat) (th : ImageParams) (x : batch) (b h w : nat) :
  (1 <= width)%nat -> (4 <= h)%nat -> (4 <= w)%nat ->
  rect4 b 3 h w x ->
  exists z,
    Sequential_forward (net (SmallImageEncoder_init d width th)) x = Ok z
    /\ length z = b
    /\ Forall (fun s => sample_shape s = ((width * 2)%nat,
                                          ((h / 2 / 2)%nat, (w / 2 / 2)%nat)))
         z.
Proof.
  intros Hwd Hh Hw [Lx Fx].
  destruct (SmallImageEncoder_net_ok d width th x h w Hwd Hh Hw)
    as [z [Ez [Fz Lz]]].
  { eapply Forall_impl; [|exact Fx]. intros s. apply rect3_shaped3; lia. }
  exists z. split; [exact Ez|]. split; [lia|exact Fz].
Qed.

Lemma rmapM_raise_kind {A B} (f : A -> result B) (k : exn) (l : list A) :
  (forall a e, f a = Raise e -> e = k) ->
  forall e, rmapM f l = Raise e -> e = k.
Proof.
  intros Hf. induction l as [|a tl IH]; intros e H; simpl in H.
  - discriminate.
  - destruct (f a) as [y|e1] eqn:Fa; simpl in H.
    + destruct (rmapM f tl) as [ys|e2]; simpl in H; [discriminate|].
      inversion H; subst. apply IH. reflexivity.
    + inversion H; subst. apply (Hf a). exact Fa.
Qed.

(** Mapping two fallible steps one after the other over a batch is mapping
    their composition, when both raise one kind of error. *)
Lemma rmapM_compose {A B C} (f : A -> result B) (g : B -> result C)
  (k : exn) (l : list A) :
  (forall a e, f a = Raise e -> e = k) ->
  (forall b e, g b = Raise e -> e = k) ->
  rmapM (fun a => rbind (f a) g) l = rbind (rmapM f l) (rmapM g).
Proof.
  intros Hf Hg. induction l as [|a tl IH]; simpl; [reflexivity|].
  destruct (f a) as [y|e1] eqn:Fa; simpl; [|reflexivity].
  rewrite IH. destruct (rmapM f tl) as [ys|e2] eqn:Ft; simpl.
  - reflexivity.
  - destruct (g y) as [c|e3] eqn:Gy; simpl.
    + reflexivity.
    + rewrite (Hg y e3 Gy).
      rewrite (rmapM_raise_kind f k tl Hf e2 Ft). reflexivity.
Qed.

Lemma rmapM_ext {A B} (f g : A -> result B) (l : list A) :
  (forall a, f a = g a) -> rmapM f l = rmapM g l.
Proof.
  intros H. induction l as [|a tl IH]; simpl; [reflexivity|].
  rewrite H, IH. reflexivity.
Qed.

Lemma rmapM_map {A B C} (f : B -> result C) (h : A -> B) (l : list A) :
  rmapM f (map h l) = rmapM (fun a => f (h a)) l.
Proof.
  induction l as [|a tl IH]; simpl; [reflexivity|]. rewrite IH. reflexivity.
Qed.

Lemma layer_sample_raises (l : layer) (s : list (list (list R))) (e : exn) :
  layer_sample l s = Raise e -> e = RuntimeError.
Proof.
  destruct l as [c| |k]; simpl.
  - unfold Conv2d_sample.
    destruct (Nat.eqb (length s) (in_channels c)); [|congruence].
    destruct (plane_shape (hd [] s)) as [h w].
    destruct (_ || _); [congruence|discriminate].
  - discriminate.
  - unfold MaxPool2d_sample.
    destruct (plane_shape (hd [] s)) as [h w].
    destruct (_ || _); [congruence|discriminate].
Qed.

Lemma Sequential_sample_raises (ls : list layer) :
  forall (s : list (list (list R))) (e : exn),
    Sequential_sample ls s = Raise e -> e = RuntimeError.
Proof.
  induction ls as [|l rest IH]; intros s e H; simpl in H.
  - discriminate.
  - destruct (layer_sample l s) as [y|e1] eqn:E; simpl in H.
    + apply (IH y). exact H.
    + inversion H; subst. apply (layer_sample_raises l s). exact E.
Qed.

Lemma Linear_row_raises (l : Linear) (x : list R) (e : exn) :
  Linear_row l x = Raise e -> e = RuntimeError.
Proof.
  unfold Linear_row.
  destruct (Nat.eqb (length x) (in_features l)); [discriminate|congruence].
Qed.

Lemma layer_forward_per_sample (l : layer) (x : list (list (list (list R)))) :
  layer_forward l x = rmapM (layer_sample l) x.
Proof.
  destruct l as [c| |k]; simpl; try reflexivity.
  symmetry. apply (rmapM_total relu3).
Qed.

Lemma Sequential_forward_per_sample (ls : list layer) :
  forall x : list (list (list (list R))),
    Sequential_forward ls x = rmapM (Sequential_sample ls) x.
Proof.
  induction ls as [|l rest IH]; intros x; simpl.
  - rewrite (rmapM_total (fun s => s)), map_id. reflexivity.
  - rewrite (rmapM_compose (layer_sample l) (Sequential_sample rest)
               RuntimeError).
    + rewrite layer_forward_per_sample.
      destruct (rmapM (layer_sample l) x) as [y|e]; simpl; [apply IH|].
      reflexivity.
    + apply layer_sample_raises.
    + apply Sequential_sample_raises.
Qed.

(** X21: the image encoder embeds every image on its own: its forward
    pass on a batch is the single-image embedding, layer stack, pooling,
    projection and normalisation, applied to each image in turn, so no
    image influences the embedding of another, and the pass raises exactly
    when some image of the batch is refused. *)
Theorem SmallImageEncoder_forward_per_sample
  (m : SmallImageEncoder) (x : batch) :
  SmallImageEncoder_forward m x = rmapM (embed_sample m) x.
Proof.
  unfold SmallImageEncoder_forward, embed_sample.
  rewrite (rmapM_compose (Sequential_sample (net m))
             (fun z => rbind (Linear_row (head m) (avgpool_flatten z))
                         (fun y => Ok (normalize_row y)))
             RuntimeError).
  - rewrite Sequential_forward_per_sample.
    destruct (rmapM (Sequential_sample (net m)) x) as [z|e]; simpl;
      [|reflexivity].
    unfold Linear_forward. rewrite rmapM_map.
    rewrite (rmapM_compose (fun s => Linear_row (head m) (avgpool_flatten s))
               (fun y => Ok (normalize_row y)) RuntimeError).
    + destruct (rmapM _ z) as [y|e]; simpl; [|reflexivity].
      rewrite (rmapM_total normalize_row). reflexivity.
    + intros s e. apply Linear_row_raises.
    + discriminate.
  - apply Sequential_sample_raises.
  - intros z e H.
    destruct (Linear_row (head m) (avgpool_flatten z)) as [y|e1] eqn:E;
      simpl in H; [discriminate|].
    inversion H; subst. apply (Linear_row_raises _ _ _ E).
Qed.

End Further.

(** ** Runs of the further properties *)

Lemma boundary_from_prob_missing_channel_witness :
  t_data no_channel_p = [] ++ [] :: []
  /\ boundary_from_prob (ext := history_externals) no_channel_p 2 empty_world
     = (Raise IndexError, empty_world).
Proof.
  split; [reflexivity|].
  exact (boundary_from_prob_missing_channel (ext := history_externals)
           no_channel_p 2 empty_world [] [] eq_refl (Forall_nil _)).
Defined.

Lemma compute_embeddings_device_mismatch_witness :
  t_device demo_image_cuda <> t_device demo_p
  /\ exists w',
       compute_embeddings (ext := history_externals) demo_alignment
         demo_image_cuda demo_p empty_world = (Raise RuntimeError, w')
       /\ length (calls w') = 3%nat.
Proof.
  assert (Hd : t_device demo_image_cuda <> t_device demo_p) by discriminate.
  split; [exact Hd|].
  eexists. split.
  - exact (compute_embeddings_device_mismatch (ext := history_externals)
             demo_alignment demo_image_cuda demo_p empty_world 1 4 4
             Hd (le_n 1) (le_S _ _ (le_S _ _ (le_S _ _ (le_n 1))))
             demo_p_rect4 (fun m H => H)).
  - reflexivity.
Defined.

Lemma update_priors_z_g_mismatch_witness :
  In true (to_bool (BoolMask [true; false]))
  /\ update_priors (ext := history_externals) demo_alignment
       [[1; 0]] [[0; 1]; [1; 0]] (BoolMask [true; false]) empty_world
     = (Raise IndexError, empty_world).
Proof.
  assert (H : In true (to_bool (BoolMask [true; false])))
    by (left; reflexivity).
  split; [exact H|].
  refine (update_priors_z_g_mismatch (ext := history_externals)
            demo_alignment [[1; 0]] [[0; 1]; [1; 0]] (BoolMask [true; false])
            empty_world H _).
  discriminate.
Defined.

Lemma update_priors_partial_on_z_b_mismatch_witness :
  In true (to_bool (BoolMask [true; false]))
  /\ exists rows_g w',
       update_priors (ext := history_externals) demo_alignment
         [[1; 0]; [0; 1]] [[0; 1]] (BoolMask [true; false]) empty_world
       = (Raise IndexError, w')
       /\ selects [true; false] [[1; 0]; [0; 1]] rows_g
       /\ heap w' 0%nat = [rows_g]
       /\ heap w' 1%nat = []
       /\ calls w' = [CallUpdate 0%nat rows_g].
Proof.
  assert (H : In true (to_bool (BoolMask [true; false])))
    by (left; reflexivity).
  split; [exact H|].
  destruct (update_priors_partial_on_z_b_mismatch (ext := history_externals)
              demo_alignment [[1; 0]; [0; 1]] [[0; 1]]
              (BoolMask [true; false]) empty_world H eq_refl)
    as [rows_g [Sg Hu]]; [discriminate|].
  exists rows_g. eexists. split; [exact Hu|].
  split; [exact Sg|]. repeat split.
Defined.

Lemma update_priors_shared_object_witness :
  ema_global shared_alignment = ema_boundary shared_alignment
  /\ exists rows_g rows_b w',
       update_priors (ext := history_externals) shared_alignment
         [[1; 0]; [0; 1]] [[0; 1]; [1; 0]] (BoolMask [true; false])
         empty_world = (Ok tt, w')
       /\ heap w' 0%nat = [rows_b; rows_g].
Proof.
  split; [reflexivity|].
  destruct (update_priors_shared_object (ext := history_externals)
              shared_alignment [[1; 0]; [0; 1]] [[0; 1]; [1; 0]]
              (BoolMask [true; false]) empty_world eq_refl
              (or_introl eq_refl) eq_refl eq_refl)
    as [rows_g [rows_b [w' [Hu [_ [_ [Hh _]]]]]]].
  exists rows_g, rows_b, w'. split; [exact Hu|exact Hh].
Defined.

Lemma agree_on_first_row :
  agree_on [true; false] [[1; 0]; [0; 1]] [[1; 0]; [5; 5]].
Proof.
  intros i Hi. destruct i as [|[|i]]; simpl in *.
  - reflexivity.
  - discriminate.
  - destruct i; discriminate.
Defined.

Lemma update_priors_ignores_invalid_rows_witness :
  agree_on [true; false] [[1; 0]; [0; 1]] [[1; 0]; [5; 5]]
  /\ update_priors (ext := history_externals) demo_alignment
       [[1; 0]; [0; 1]] [[1; 0]; [0; 1]] (BoolMask [true; false]) empty_world
     = update_priors (ext := history_externals) demo_alignment
         [[1; 0]; [5; 5]] [[1; 0]; [5; 5]] (BoolMask [true; false])
         empty_world.
Proof.
  split; [exact agree_on_first_row|].
  exact (update_priors_ignores_invalid_rows (ext := history_externals)
           demo_alignment [[1; 0]; [0; 1]] [[1; 0]; [5; 5]]
           [[1; 0]; [0; 1]] [[1; 0]; [5; 5]] (BoolMask [true; false])
           empty_world eq_refl eq_refl agree_on_first_row agree_on_first_row).
Defined.

Lemma update_priors_all_valid_witness :
  Forall (fun b => b = true) (to_bool (BoolMask [true; true]))
  /\ exists w',
       update_priors (ext := history_externals) demo_alignment
         [[1; 0]; [0; 1]] [[0; 1]; [1; 0]] (BoolMask [true; true]) empty_world
       = (Ok tt, w')
       /\ calls w' = [CallUpdate 0%nat [[1; 0]; [0; 1]];
                      CallUpdate 1%nat [[0; 1]; [1; 0]]].
Proof.
  assert (H : Forall (fun b => b = true) (to_bool (BoolMask [true; true])))
    by (repeat constructor).
  split; [exact H|].
  eexists. split.
  - refine (update_priors_all_valid (ext := history_externals)
              demo_alignment [[1; 0]; [0; 1]] [[0; 1]; [1; 0]]
              (BoolMask [true; true]) empty_world _ H eq_refl eq_refl).
    discriminate.
  - reflexivity.
Defined.

Lemma tiny_batch_rect4 : rect4 1 3 2 2 tiny_batch.
Proof. split; [reflexivity|]. repeat constructor. Defined.

Lemma SmallImageEncoder_rejects_small_images_witness :
  rect4 1 3 2 2 tiny_batch
  /\ SmallImageEncoder_forward
       (SmallImageEncoder_init 2 1 (init_image demo_params)) tiny_batch
     = Raise RuntimeError.
Proof.
  split; [exact tiny_batch_rect4|].
  exact (SmallImageEncoder_rejects_small_images 2 1 (init_image demo_params)
           tiny_batch 1 2 2 (le_n 1) (le_n 1) (le_S _ _ (le_n 1))
           (le_S _ _ (le_n 1))
           (or_introl (le_S _ _ (le_n 3))) tiny_batch_rect4).
Defined.

Lemma SmallImageEncoder_rejects_channel_count_witness :
  rect4 1 1 4 4 (t_data demo_p)
  /\ SmallImageEncoder_forward
       (SmallImageEncoder_init 2 1 (init_image demo_params)) (t_data demo_p)
     = Raise RuntimeError.
Proof.
  split; [exact demo_p_rect4|].
  refine (SmallImageEncoder_rejects_channel_count 2 1
            (init_image demo_params) (t_data demo_p) 1 1 4 4 (le_n 1) _
            demo_p_rect4).
  discriminate.
Defined.

Lemma Fusion_rejects_batch_mismatch_witness :
  length [[1; 0]; [0; 1]] <> length [[1; 0]]
  /\ Fusion_forward (fusion demo_encoder) [[1; 0]; [0; 1]] [[1; 0]]
     = Raise RuntimeError.
Proof.
  assert (H : length [[1; 0]; [0; 1]] <> length [[1; 0]]) by discriminate.
  split; [exact H|].
  exact (Fusion_rejects_batch_mismatch (fusion demo_encoder)
           [[1; 0]; [0; 1]] [[1; 0]] H).
Defined.

Lemma rows_1_3 : rows 1 3 [[1; 0; 0]].
Proof. split; [reflexivity|]. repeat constructor. Defined.

Lemma Fusion_accepts_widths_summing_to_2D_witness :
  rows 1 1 [[1]] /\ rows 1 3 [[1; 0; 0]]
  /\ (exists out,
        FusionMLP_forward (FusionMLP_init 2 (init_mlp demo_params))
          [[1]] [[1; 0; 0]] = Ok out
        /\ rows 1 2 out)
  /\ (exists out,
        FusionAttention_forward
          (FusionAttention_init 2 (init_attn demo_params))
          [[1]] [[1; 0; 0]] = Ok out
        /\ rows 1 2 out).
Proof.
  split; [exact unit_rows_1_1|]. split; [exact rows_1_3|].
  exact (Fusion_accepts_widths_summing_to_2D 2 (init_mlp demo_params)
           (init_attn demo_params) [[1]] [[1; 0; 0]] 1 1 3 eq_refl
           unit_rows_1_1 rows_1_3).
Defined.

Lemma Fusion_rejects_other_widths_witness :
  rows 1 1 [[1]]
  /\ FusionMLP_forward (FusionMLP_init 2 (init_mlp demo_params)) [[1]] [[1]]
     = Raise RuntimeError
  /\ FusionAttention_forward
       (FusionAttention_init 2 (init_attn demo_params)) [[1]] [[1]]
     = Raise RuntimeError.
Proof.
  split; [exact unit_rows_1_1|].
  refine (Fusion_rejects_other_widths 2 (init_mlp demo_params)
            (init_attn demo_params) [[1]] [[1]] 1 1 1 (le_n 1) _
            unit_rows_1_1 unit_rows_1_1).
  discriminate.
Defined.

Lemma embedding_norm_at_most_1_witness :
  exists out,
    Fusion_forward (UseFusionMLP (FusionMLP_init 1 (init_mlp demo_params)))
      [[1]] [[1]] = Ok out
    /\ Forall (fun r => norm2 r <= 1) out.
Proof.
  destruct (FusionMLP_forward_ok 1 (init_mlp demo_params) [[1]] [[1]] 1
              unit_rows_1_1 unit_rows_1_1) as [z [y [_ [_ [_ Ef]]]]].
  exists (F_normalize y). split; [exact Ef|].
  exact (embedding_norm_at_most_1
           (SmallImageEncoder_init 2 1 (init_image demo_params))
           (UseFusionMLP (FusionMLP_init 1 (init_mlp demo_params)))
           [] [[1]] [[1]] (F_normalize y) (or_intror Ef)).
Defined.

Lemma encoder_mask_saturates_witness :
  rect4 1 3 4 4 (t_data demo_image)
  /\ rect4 1 2 4 4 (t_data demo_mask_pair)
  /\ exists masked z_img z_fused w',
       MultiModalSymbolicEncoder_forward (ext := history_externals)
         demo_encoder demo_image demo_mask_pair empty_world
       = (Ok (z_fused, demo_mask_encoder demo_mask_pair, z_img), w')
       /\ at4 (t_data masked) 0 0 0 0 = Some (1 * (3/4)).
Proof.
  split; [exact demo_image_rect4|]. split; [exact demo_mask_pair_rect4|].
  destruct (encoder_mask_saturates (ext := history_externals)
              demo_mask_encoder demo_cfg demo_params demo_encoder
              demo_image demo_mask_pair empty_world 1 4 4
              demo_init (le_n 1) (le_n 4) (le_n 4) eq_refl
              demo_image_rect4 demo_mask_pair_rect4
              (demo_mask_encoder_rows 1 demo_mask_pair demo_mask_pair_rect4))
    as [masked [z_img [z_fused [Hf Hent]]]].
  exists masked, z_img, z_fused. eexists. split; [exact Hf|].
  destruct (Hent 0%nat 0%nat 0%nat 0%nat 1 (3/4) eq_refl eq_refl)
    as [_ [_ Hin]].
  apply Hin. split; lra.
Defined.

Lemma compute_embeddings_call_order_witness :
  rect4 1 3 4 4 (t_data demo_image)
  /\ rect4 1 1 4 4 (t_data demo_p)
  /\ exists z w',
       compute_embeddings (ext := history_externals) demo_alignment
         demo_image demo_p empty_world = (Ok z, w')
       /\ length (calls w') = 9%nat.
Proof.
  split; [exact demo_image_rect4|]. split; [exact demo_p_rect4|].
  destruct (compute_embeddings_call_order (ext := history_externals)
              demo_mask_encoder demo_cfg demo_params demo_alignment
              demo_image demo_p empty_world 1 4 4
              demo_init (le_n 1) (le_n 1) (le_n 4) (le_n 4) eq_refl
              demo_image_rect4 demo_p_rect4
              (fun m H => H) (demo_mask_encoder_rows 1))
    as [mg [mb [zi_g [zi_b [z [w' [Hce [Hc _]]]]]]]].
  exists z, w'. split; [exact Hce|]. rewrite Hc. reflexivity.
Defined.

Lemma compute_embeddings_mask_selector_witness :
  output demo_alignment_mask = "mask"%string
  /\ exists w',
       compute_embeddings (ext := history_externals) demo_alignment_mask
         demo_image demo_p empty_world
       = (Ok ([[1; 0]], [[1; 0]]), w').
Proof.
  split; [reflexivity|].
  destruct (compute_embeddings_mask_selector (ext := history_externals)
              demo_mask_encoder demo_cfg demo_params demo_alignment_mask
              demo_image demo_p empty_world 1 4 4 eq_refl
              demo_init (le_n 1) (le_n 1) (le_n 4) (le_n 4) eq_refl
              demo_image_rect4 demo_p_rect4
              (fun m H => H) (demo_mask_encoder_rows 1))
    as [mg [mb [zi_g [zi_b [w' [Hce _]]]]]].
  exists w'. exact Hce.
Defined.

Lemma SmallImageEncoder_net_resolution_witness :
  rect4 1 3 4 4 (t_data demo_image)
  /\ exists z,
       Sequential_forward
         (net (SmallImageEncoder_init 2 1 (init_image demo_params)))
         (t_data demo_image) = Ok z
       /\ length z = 1%nat
       /\ Forall (fun s => sample_shape s = (2%nat, (1%nat, 1%nat))) z.
Proof.
  split; [exact demo_image_rect4|].
  exact (SmallImageEncoder_net_resolution 2 1 (init_image demo_params)
           (t_data demo_image) 1 4 4 (le_n 1) (le_n 4) (le_n 4)
           demo_image_rect4).
Defined.
